(** * The USCIS data-hub scraper: metadata store, consistency checker,
      download orchestrator and retry scheduler

    A shallow embedding of [src/datahub_extractor.py].  The two in-memory
    dictionaries of a [USCISDataScraper] ([self.metadata], [self.checksums])
    are insertion-ordered association lists, as Python dictionaries are; the
    file system is an association list from paths to file texts; the methods
    are functions in a small state-and-exception monad over the outside
    world.  The libraries the module calls ([hashlib], [json], [requests],
    [BeautifulSoup], [urllib]) are taken as parameters, bundled in [env]. *)

From stdpp Require Import base list strings pretty.

Set Default Proof Using "Type".

(** * Part I: the program *)

(** ** Python dictionaries as association lists *)

Module Dict.
Section defs.
Context {K V : Type} `{EqDecision K}.

(** [d.get(k)]: the value of the first binding of [k]. *)
Fixpoint get (k : K) (d : list (K * V)) : option V :=
  match d with
  | [] => None
  | (k', v) :: r => if decide (k = k') then Some v else get k r
  end.

(** [k in d] *)
Definition mem (k : K) (d : list (K * V)) : bool :=
  match get k d with Some _ => true | None => false end.

(** [d[k] = v]: an existing key keeps its place, a new key goes last. *)
Fixpoint set (k : K) (v : V) (d : list (K * V)) : list (K * V) :=
  match d with
  | [] => [(k, v)]
  | (k', v') :: r => if decide (k = k') then (k, v) :: r else (k', v') :: set k v r
  end.

(** [del d[k]] (the callers only delete keys they know to be present). *)
Fixpoint del (k : K) (d : list (K * V)) : list (K * V) :=
  match d with
  | [] => []
  | (k', v') :: r => if decide (k = k') then del k r else (k', v') :: del k r
  end.

(** In-place mutation of the value object stored under [k]; nothing is
    inserted when [k] is not a key. *)
Fixpoint alter (f : V → V) (k : K) (d : list (K * V)) : list (K * V) :=
  match d with
  | [] => []
  | (k', v') :: r => if decide (k = k') then (k', f v') :: r else (k', v') :: alter f k r
  end.

Definition keys (d : list (K * V)) : list K := d.*1.

Definition values (d : list (K * V)) : list V := d.*2.

(** A Python dictionary holds each key once. *)
Definition wf (d : list (K * V)) : Prop := NoDup (keys d).

End defs.
End Dict.

(** ** Data model *)

Abbreviation url := string (only parsing).
Abbreviation checksum_t := string (only parsing).

(** Paths, relative to the download directory of the scraper. *)
Inductive path :=
  | InRoot (name : string)            (* download_dir / name *)
  | InVisa (visa : string) (name : string)  (* download_dir / visa / name *)
  | SysTemp (n : nat).                (* a file of tempfile.NamedTemporaryFile *)

#[global] Instance path_eq_dec : EqDecision path.
Proof. solve_decision. Defined.

(** The value stored under a URL in [self.metadata]. *)
Record meta := Meta {
  filename : string;
  download_date : string;
  checksum : checksum_t;
  size_bytes : nat;
}.

#[global] Instance meta_eq_dec : EqDecision meta.
Proof. solve_decision. Defined.

(** An element of the list returned by [_extract_file_links]. *)
Record link := Link { link_url : url; link_name : string }.

(** The state of a [USCISDataScraper] object. *)
Record scraper := Scraper {
  metadata : list (url * meta);
  checksums : list (checksum_t * url);
}.

(** The dictionary returned by [cleanup_inconsistencies]. *)
Record issues := Issues {
  missing_files : list string;
  checksum_mismatches : list string;
  orphaned_files : list string;
}.

(** The library functions the module relies on. *)
Record env := Env {
  (* hashlib.sha256 over the bytes of a file, as a hex digest *)
  sha256_hexdigest : string → string;
  (* hashlib.md5(u.encode()).hexdigest()[:8] *)
  md5_hex8 : string → string;
  (* json.dump(..., indent=2, sort_keys=True) and json.load; None: it raises *)
  json_dump_metadata : list (url * meta) → string;
  json_load_metadata : string → option (list (url * meta));
  json_dump_checksums : list (checksum_t * url) → string;
  json_load_checksums : string → option (list (checksum_t * url));
  (* requests.get(u, stream=True) with raise_for_status; None: it raises *)
  http_get : url → option string;
  (* the links BeautifulSoup finds on an index page; None: fetching or
     parsing raises *)
  page_links : url → option (list link);
  (* Path(urlparse(u).path).name *)
  url_basename : url → string;
}.

(** ** The outside world *)

(** What the next fallible input/output operation does. *)
Inductive fault :=
  | NoFault                 (* it succeeds *)
  | FailAtOpen              (* it raises before anything is written *)
  | FailAfter (k : nat).    (* it raises after [k] characters are written *)

Record world := World {
  (* the files that exist, with their text *)
  disk : list (path * string);
  (* every state the disk went through, the latest first *)
  trail : list (list (path * string));
  (* the fate of the coming writes, renames and transfers; none left: no fault *)
  faults : list fault;
  (* datetime.now() *)
  clock : string;
  (* the module global [logger] is assigned; it is [None] in a new process
     (line 47), and [__init__] assigns it (line 73) *)
  logger : bool;
}.

Inductive exn := OSError | RequestException | JSONDecodeError | AttributeError.

Inductive outcome (A : Type) :=
  | Returned (a : A)
  | Raised (e : exn).
Arguments Returned {A} a.
Arguments Raised {A} e.

(** ** A state-and-exception monad over the world *)

Definition IO (A : Type) : Type := world → outcome A * world.

Definition ret {A} (a : A) : IO A := λ w, (Returned a, w).

Definition raise {A} (e : exn) : IO A := λ w, (Raised e, w).

Definition bind {A B} (m : IO A) (k : A → IO B) : IO B :=
  λ w, match m w with
       | (Returned a, w') => k a w'
       | (Raised e, w') => (Raised e, w')
       end.

(** [try: m except Exception as e: h e] *)
Definition try_catch {A} (m : IO A) (h : exn → IO A) : IO A :=
  λ w, match m w with
       | (Returned a, w') => (Returned a, w')
       | (Raised e, w') => h e w'
       end.

Notation "x <~ m ;; k" := (bind m (λ x, k))
  (at level 100, m at next level, right associativity).
Notation "m ;;; k" := (bind m (λ _, k))
  (at level 100, right associativity).

Definition get_disk : IO (list (path * string)) := λ w, (Returned (disk w), w).

Definition put_disk (d : list (path * string)) : IO unit :=
  λ w, (Returned (), {| disk := d; trail := d :: trail w;
                        faults := faults w; clock := clock w;
                        logger := logger w |}).

Definition now : IO string := λ w, (Returned (clock w), w).

Definition next_fault : IO fault :=
  λ w, match faults w with
       | [] => (Returned NoFault, w)
       | f :: fs => (Returned f, {| disk := disk w; trail := trail w;
                                    faults := fs; clock := clock w;
                                    logger := logger w |})
       end.

(** [global logger] and [logger = ...], lines 72-73. *)
Definition assign_logger : IO unit :=
  λ w, (Returned (), {| disk := disk w; trail := trail w; faults := faults w;
                        clock := clock w; logger := true |}).

(** A call of a method of the global [logger]: on [None] it raises
    [AttributeError]. *)
Definition logger_call : IO unit :=
  λ w, if logger w then (Returned (), w) else (Raised AttributeError, w).

(** [p.exists()], for the paths of files: the disk holds no directory. *)
Definition path_exists (p : path) : IO bool :=
  d <~ get_disk ;; ret (Dict.mem p d).

(** [p.mkdir(parents=True, exist_ok=True)].  The disk holds files only, so
    a directory that exists or is made leaves it as it is; a file of that
    name makes the call raise [FileExistsError]. *)
Definition mkdir (p : path) : IO unit :=
  d <~ get_disk ;; if Dict.mem p d then raise OSError else ret ().

(** [open(p).read()] *)
Definition read_text (p : path) : IO string :=
  d <~ get_disk ;;
  match Dict.get p d with
  | Some s => ret s
  | None => raise OSError
  end.

(** [p.unlink()] *)
Definition unlink (p : path) : IO unit :=
  d <~ get_disk ;;
  match Dict.get p d with
  | Some _ => put_disk (Dict.del p d)
  | None => raise OSError
  end.

(** The file [p] is created or truncated, then receives the first [upto]
    characters of [text] one at a time; a crash in between leaves a prefix. *)
Fixpoint grow (p : path) (text : string) (upto : nat) : IO unit :=
  match upto with
  | 0 => d <~ get_disk ;; put_disk (Dict.set p "" d)
  | S k =>
      grow p text k ;;;
      d <~ get_disk ;; put_disk (Dict.set p (String.substring 0 (S k) text) d)
  end.

(** [with open(p, 'w') as f: f.write(text)] *)
Definition write_text (p : path) (text : string) : IO unit :=
  f <~ next_fault ;;
  match f with
  | NoFault => grow p text (String.length text)
  | FailAtOpen => raise OSError
  | FailAfter k => grow p text (k `min` String.length text) ;;; raise OSError
  end.

(** [src.replace(dst)]: one atomic rename. *)
Definition replace (src dst : path) : IO unit :=
  f <~ next_fault ;;
  match f with
  | NoFault =>
      d <~ get_disk ;;
      match Dict.get src d with
      | Some s => put_disk (Dict.set dst s (Dict.del src d))
      | None => raise OSError
      end
  | _ => raise OSError
  end.

(** The name [tempfile] picks: one that no file has. *)
Definition temp_rank (p : path) : nat :=
  match p with SysTemp n => S n | _ => 0 end.

Definition fresh_temp (d : list (path * string)) : path :=
  SysTemp (max_list (temp_rank <$> Dict.keys d)).

(** [tempfile.NamedTemporaryFile(delete=False)] *)
Definition named_temporary_file : IO path :=
  d <~ get_disk ;;
  put_disk (Dict.set (fresh_temp d) "" d) ;;;
  ret (fresh_temp d).

(** [attempt m]: run [m] and hand back what it raised, if anything. *)
Definition attempt_io {A} (m : IO A) : IO (exn + A) :=
  λ w, match m w with
       | (Returned a, w') => (Returned (inr a), w')
       | (Raised e, w') => (Returned (inl e), w')
       end.

(** ** Module constants *)

Definition MAX_RETRIES : nat := 5.
Definition BACKOFF_BASE_SECONDS : nat := 60.
Definition BACKOFF_MAX_SECONDS : nat := 30 * 60.

Definition BASE_URLS : list (string * url) :=
  [ ("h1b", "https://www.uscis.gov/archive/h-1b-employer-data-hub-files");
    ("h2a", "https://www.uscis.gov/archive/h-2a-employer-data-hub-files");
    ("h2b", "https://www.uscis.gov/archive/h-2b-employer-data-hub-files") ].

Definition metadata_file : path := InRoot "metadata.json".
Definition checksums_file : path := InRoot "checksums.json".
Definition failure_file : path := InRoot "SCRAPE_FAILURE.txt".

Definition newline : string := String (Ascii.ascii_of_nat 10) "".

(** [p.name] *)
Definition path_name (p : path) : string :=
  match p with
  | InRoot n => n
  | InVisa _ n => n
  | SysTemp n => "tmp" +:+ pretty n
  end.

(** ** The metadata store: loading and saving *)

Section scraper.
Variable E : env.

(** [_load_metadata], lines 85-94. *)
Definition _load_metadata : IO (list (url * meta)) :=
  present <~ path_exists metadata_file ;;
  if present then
    try_catch
      (text <~ read_text metadata_file ;;
       match json_load_metadata E text with
       | Some m => ret m
       | None => raise JSONDecodeError
       end)
      (λ _, ret [])
  else ret [].

(** [_load_checksums], lines 96-105. *)
Definition _load_checksums : IO (list (checksum_t * url)) :=
  present <~ path_exists checksums_file ;;
  if present then
    try_catch
      (text <~ read_text checksums_file ;;
       match json_load_checksums E text with
       | Some c => ret c
       | None => raise JSONDecodeError
       end)
      (λ _, ret [])
  else ret [].

(** Lines 79-81 of [__init__]: the two dictionaries are read from the disk.
    The whole constructor is [__init__] below. *)
Definition new_scraper : IO scraper :=
  m <~ _load_metadata ;;
  c <~ _load_checksums ;;
  ret {| metadata := m; checksums := c |}.

(** [setup_logging], lines 31-45: the directory of the logs is made, then
    the handlers are set up.  The log file that [logging.FileHandler] opens
    lies in [download_dir/logs], whose files the disk of this model does not
    hold. *)
Definition setup_logging : IO unit := mkdir (InRoot "logs").

(** [__init__], lines 62-83: the logger is set up and assigned to the module
    global, the directories of the visa types are made, and the two
    dictionaries are loaded.  When [setup_logging] raises, the global keeps
    the value it had. *)
Definition __init__ : IO scraper :=
  setup_logging ;;;
  assign_logger ;;;
  foldr (λ visa_type rest, mkdir (InRoot visa_type) ;;; rest) (ret ())
        ["h1b"; "h2a"; "h2b"] ;;;
  self <~ new_scraper ;;
  logger_call ;;;
  ret self.

(** [_save_metadata], lines 107-118. *)
Definition _save_metadata (self : scraper) : IO unit :=
  let temp_file := InRoot "metadata.tmp" in
  try_catch
    (write_text temp_file (json_dump_metadata E (metadata self)) ;;;
     replace temp_file metadata_file)
    (λ _, left_over <~ path_exists temp_file ;;
          if left_over then unlink temp_file else ret ()).

(** [_save_checksums], lines 120-131. *)
Definition _save_checksums (self : scraper) : IO unit :=
  let temp_file := InRoot "checksums.tmp" in
  try_catch
    (write_text temp_file (json_dump_checksums E (checksums self)) ;;;
     replace temp_file checksums_file)
    (λ _, left_over <~ path_exists temp_file ;;
          if left_over then unlink temp_file else ret ()).

(** [_calculate_checksum], lines 133-139. *)
Definition _calculate_checksum (filepath : path) : IO checksum_t :=
  bytes <~ read_text filepath ;;
  ret (sha256_hexdigest E bytes).

(** [_is_duplicate], lines 141-163. *)
Definition _is_duplicate (self : scraper) (u : url) (filepath : path) : IO bool :=
  if Dict.mem u (metadata self) then ret true
  else
    c <~ _calculate_checksum filepath ;;
    if Dict.mem c (checksums self) then ret true else ret false.

(** [_extract_file_links], lines 165-199: whatever goes wrong, the empty
    list is returned. *)
Definition _extract_file_links (page : url) : IO (list link) :=
  match page_links E page with
  | Some links => ret links
  | None => ret []
  end.

(** ** The download orchestrator *)

(** The body of the [with tempfile.NamedTemporaryFile...] block of
    [_download_file], lines 215-231; its value is what [tmp_path] is
    assigned on the last line of the block. *)
Definition fetch_to_temp (u : url) : IO path :=
  tmp_file <~ named_temporary_file ;;
  match http_get E u with
  | None => raise RequestException
  | Some body =>
      f <~ next_fault ;;
      match f with
      | NoFault => grow tmp_file body (String.length body) ;;; ret tmp_file
      | FailAtOpen => raise RequestException
      | FailAfter k => grow tmp_file body (k `min` String.length body) ;;; raise OSError
      end
  end.

(** [dest_path.stat().st_size] *)
Definition stat_size (p : path) : IO nat :=
  bytes <~ read_text p ;; ret (String.length bytes).

(** [_download_file], lines 201-258.  The handler of the [try] tests
    [tmp_path], which is [None] until the [with] block has run to its end:
    an exception raised inside the block reaches the handler with nothing to
    unlink. *)
Definition _download_file (self : scraper) (u : url) (dest_path : path)
  : IO (bool * scraper) :=
  fetched <~ attempt_io (fetch_to_temp u) ;;
  match fetched with
  | inl _ => ret (false, self)
  | inr tmp_path =>
      try_catch
        (dup <~ _is_duplicate self u tmp_path ;;
         if dup then unlink tmp_path ;;; ret (false, self)
         else
           replace tmp_path dest_path ;;;
           c <~ _calculate_checksum dest_path ;;
           date <~ now ;;
           size <~ stat_size dest_path ;;
           ret (true,
                {| metadata :=
                     Dict.set u {| filename := path_name dest_path;
                                   download_date := date;
                                   checksum := c;
                                   size_bytes := size |} (metadata self);
                   checksums := Dict.set c u (checksums self) |}))
        (λ _, left_over <~ path_exists tmp_path ;;
              (if left_over then unlink tmp_path else ret ()) ;;;
              ret (false, self))
  end.

(** The [for link in file_links] loop of [scrape_visa_type], lines 288-297. *)
Fixpoint download_links (visa_type : string) (file_links : list link)
    (download_count : nat) (self : scraper) : IO (nat * scraper) :=
  match file_links with
  | [] => ret (download_count, self)
  | l :: rest =>
      let name := url_basename E (link_url l) in
      let name := if decide (name = "") then
                    visa_type +:+ "_" +:+ md5_hex8 E (link_url l) +:+ ".csv"
                  else name in
      r <~ _download_file self (link_url l) (InVisa visa_type name) ;;
      download_links visa_type rest
        (if r.1 then S download_count else download_count) r.2
  end.

(** [scrape_visa_type], lines 260-299. *)
Definition scrape_visa_type (self : scraper) (visa_type : string)
  : IO (nat * scraper) :=
  match Dict.get visa_type BASE_URLS with
  | None => ret (0, self)
  | Some page =>
      file_links <~ _extract_file_links page ;;
      match file_links with
      | [] => ret (0, self)
      | _ => download_links visa_type file_links 0 self
      end
  end.

(** The loop of [scrape_all], lines 310-312. *)
Fixpoint scrape_each (visa_types : list string) (results : list (string * nat))
    (self : scraper) : IO (list (string * nat) * scraper) :=
  match visa_types with
  | [] => ret (results, self)
  | v :: rest =>
      r <~ scrape_visa_type self v ;;
      scrape_each rest (Dict.set v r.1 results) r.2
  end.

(** [scrape_all], lines 301-319. *)
Definition scrape_all (self : scraper) : IO (list (string * nat) * scraper) :=
  r <~ scrape_each (Dict.keys BASE_URLS) [] self ;;
  _save_metadata r.2 ;;;
  _save_checksums r.2 ;;;
  ret r.

(** ** The consistency checker *)

(** Lines 339-350: the first of [download_dir/h1b/name], [download_dir/h2a/name],
    [download_dir/h2b/name], [download_dir/name] that exists. *)
Definition locate (d : list (path * string)) (name : string) : option path :=
  match List.find (λ p, Dict.mem p d)
                  ((λ v, InVisa v name) <$> Dict.keys BASE_URLS) with
  | Some p => Some p
  | None => if Dict.mem (InRoot name) d then Some (InRoot name) else None
  end.

Definition with_checksum (c : checksum_t) (m : meta) : meta :=
  {| filename := filename m; download_date := download_date m;
     checksum := c; size_bytes := size_bytes m |}.

(** One turn of the loop over [list(self.metadata.items())], lines 337-369.
    [m] is the value object listed for [u] when the loop started; it is the
    very object [self.metadata] holds under [u], and only the turn of [u]
    writes to it, so [meta['checksum'] = ...] is an in-place update of the
    entry of [u]. *)
Definition check_record (um : url * meta) (st : scraper * issues)
  : IO (scraper * issues) :=
  let self := st.1 in
  let found := st.2 in
  d <~ get_disk ;;
  match locate d (filename um.2) with
  | None =>
      ret ({| metadata := Dict.del um.1 (metadata self);
              checksums := if Dict.mem (checksum um.2) (checksums self)
                           then Dict.del (checksum um.2) (checksums self)
                           else checksums self |},
           {| missing_files := missing_files found ++ [filename um.2];
              checksum_mismatches := checksum_mismatches found;
              orphaned_files := orphaned_files found |})
  | Some filepath =>
      current_checksum <~ _calculate_checksum filepath ;;
      if decide (current_checksum = checksum um.2) then ret (self, found)
      else
        ret ({| metadata := Dict.alter (with_checksum current_checksum) um.1
                              (metadata self);
                checksums := Dict.set current_checksum um.1 (checksums self) |},
             {| missing_files := missing_files found;
                checksum_mismatches := checksum_mismatches found ++ [filename um.2];
                orphaned_files := orphaned_files found |})
  end.

Fixpoint check_records (items : list (url * meta)) (st : scraper * issues)
  : IO (scraper * issues) :=
  match items with
  | [] => ret st
  | um :: rest => st' <~ check_record um st ;; check_records rest st'
  end.

(** Lines 372-379: the files of the three visa directories that no record
    names, as paths relative to the download directory. *)
Definition orphans (d : list (path * string)) (tracked_files : list string)
  : list string :=
  v ← Dict.keys BASE_URLS;
  p ← Dict.keys d;
  match p with
  | InVisa v' name =>
      if decide (v' = v) then
        if decide (name ∈ tracked_files) then [] else [v +:+ "/" +:+ name]
      else []
  | _ => []
  end.

(** [cleanup_inconsistencies], lines 321-387. *)
Definition cleanup_inconsistencies (self : scraper) : IO (issues * scraper) :=
  st <~ check_records (metadata self)
          (self, {| missing_files := []; checksum_mismatches := [];
                    orphaned_files := [] |}) ;;
  d <~ get_disk ;;
  let tracked_files := filename <$> Dict.values (metadata st.1) in
  let found := {| missing_files := missing_files st.2;
                  checksum_mismatches := checksum_mismatches st.2;
                  orphaned_files := orphaned_files st.2 ++ orphans d tracked_files |} in
  (match missing_files found, checksum_mismatches found with
   | [], [] => ret ()
   | _, _ => _save_metadata st.1 ;;; _save_checksums st.1
   end) ;;;
  ret (found, st.1).

(** ** Housekeeping and the report *)

(** [cleanup_old_logs], lines 389-411: it only deletes files of
    [download_dir/logs], which the disk of this model does not hold, and it
    catches what the deletions raise. *)
Definition cleanup_old_logs (self : scraper) : IO unit := ret ().

(** The text [generate_report] builds, lines 420-444, reduced to its title,
    its date and the total count; the counts per visa type and the sizes in
    megabytes are further lines of the same text. *)
Definition report_text (self : scraper) (stamp : string) : string :=
  "USCIS Data Hub Scraper Report" +:+ newline +:+ "Generated: " +:+ stamp
  +:+ newline +:+ "Total files: " +:+ pretty (length (metadata self)).

(** [generate_report], lines 413-452: the report file is written outside of
    any [try]. *)
Definition generate_report (self : scraper) : IO string :=
  stamp <~ now ;;
  let report := report_text self stamp in
  write_text (InRoot ("report_" +:+ stamp +:+ ".txt")) report ;;;
  ret report.

(** ** The retry scheduler *)

(** The message of [send_failure_notification], lines 460-464. *)
Definition failure_message (attempt : nat) (stamp : string) : string :=
  "ALERT: USCIS scraper failed after " +:+ pretty attempt +:+ " attempts"
  +:+ newline +:+ "Time: " +:+ stamp
  +:+ newline +:+ "Check logs in: uscis_data/logs".

(** [send_failure_notification], lines 455-478.  The message is logged with
    [logger.critical] before the [try] (lines 466-469), so the call raises
    when the global [logger] is [None].  The value tells which of the two
    closing log lines was reached: [true] for "Failure flag written",
    [false] for "Failed to write failure flag". *)
Definition send_failure_notification (attempt : nat) : IO bool :=
  stamp <~ now ;;
  logger_call ;;;
  try_catch
    (write_text failure_file (failure_message attempt stamp) ;;;
     logger_call ;;;
     ret true)
    (λ _, logger_call ;;; ret false).

(** The body of the [try] of [scheduled_job_with_retry], lines 500-523. *)
Definition run_cycle : IO unit :=
  self <~ __init__ ;;
  r <~ scrape_all self ;;
  i <~ cleanup_inconsistencies r.2 ;;
  cleanup_old_logs i.2 ;;;
  generate_report i.2 ;;;
  logger_call ;;;
  flagged <~ path_exists failure_file ;;
  if flagged then unlink failure_file ;;; logger_call else ret ().

(** Lines 533-536. *)
Definition backoff (attempt : nat) : nat :=
  (BACKOFF_BASE_SECONDS * 2 ^ (attempt - 1)) `min` BACKOFF_MAX_SECONDS.

(** The local variables of [scheduled_job_with_retry], the calls of
    [time.sleep] made so far (the latest last), and the world. *)
Record job := Job {
  attempt : nat;
  success : bool;
  slept : list nat;
  outside : world;
}.

(** One turn of the [while] loop, lines 497-540. *)
Definition attempt_once (j : job) : job :=
  let n := S (attempt j) in
  match run_cycle (outside j) with
  | (Returned _, w) =>
      {| attempt := n; success := true; slept := slept j; outside := w |}
  | (Raised _, w) =>
      {| attempt := n; success := success j;
         slept := if decide (n < MAX_RETRIES) then slept j ++ [backoff n]
                  else slept j;
         outside := w |}
  end.

(** [while attempt < MAX_RETRIES and not success], with the number of turns
    allowed; [None]: the turns allowed ran out before the loop ended. *)
Fixpoint retry_loop (turns : nat) (j : job) : option job :=
  if decide (attempt j < MAX_RETRIES ∧ success j = false) then
    match turns with
    | 0 => None
    | S k => retry_loop k (attempt_once j)
    end
  else Some j.

(** How [scheduled_job_with_retry] ends: the loop variables, and, when
    [send_failure_notification] was called, its attempt count and how the
    call ended: it returned, with the flag file written or not, or it
    raised, and the exception left [scheduled_job_with_retry] (line 544 is
    under no [try]). *)
Record job_end := JobEnd {
  final : job;
  alert : option (nat * outcome bool);
}.

(** [scheduled_job_with_retry], lines 481-544. *)
Definition scheduled_job_with_retry (w : world) : option job_end :=
  match retry_loop MAX_RETRIES
          {| attempt := 0; success := false; slept := []; outside := w |} with
  | None => None
  | Some j =>
      if success j then Some {| final := j; alert := None |}
      else
        let r := send_failure_notification (attempt j) (outside j) in
        Some {| final := {| attempt := attempt j; success := success j;
                            slept := slept j; outside := r.2 |};
                alert := Some (attempt j, r.1) |}
  end.

End scraper.

(** * Part II: the vocabulary of the properties *)

(** ** Faults and saves *)

(** The next fallible operation succeeds. *)
Definition no_fault_next (w : world) : bool :=
  match faults w with
  | [] | NoFault :: _ => true
  | _ => false
  end.

(** An input/output failure strikes the save: the write of the temporary
    file fails, or the rename that follows it does. *)
Definition save_breaks (w : world) : bool :=
  match faults w with
  | NoFault :: NoFault :: _ | [NoFault] | [] => false
  | _ => true
  end.

(** The shape shared by [_save_metadata] and [_save_checksums]. *)
Definition save_text (temp_file target : path) (text : string) : IO unit :=
  try_catch
    (write_text temp_file text ;;; replace temp_file target)
    (λ _, left_over <~ path_exists temp_file ;;
          if left_over then unlink temp_file else ret ()).

(** A state of the disk during a save started from [d0]: only the
    temporary file and the target differ, and the target has its former text
    or the new one. *)
Definition save_state (temp_file target : path) (text : string)
    (d0 d : list (path * string)) : Prop :=
  (∀ p, p ≠ temp_file → p ≠ target → Dict.get p d = Dict.get p d0)
  ∧ (Dict.get target d = Dict.get target d0 ∨ Dict.get target d = Some text).

(** The two saves that end [scrape_all] (lines 315-316) and
    [cleanup_inconsistencies] (lines 383-384). *)
Definition persist (E : env) (self : scraper) : IO unit :=
  _save_metadata E self ;;; _save_checksums E self.

(** ** Transfers and the consistency checker *)

Section vocabulary.
Variable E : env.

(** The transfer of [u] raises inside the [with] block: the request fails,
    or the stream or the write breaks off. *)
Definition transfer_breaks (u : url) (w : world) : Prop :=
  http_get E u = None
  ∨ (∃ body, http_get E u = Some body ∧ no_fault_next w = false).

(** Each of the two state files, in a state of the disk: its text from
    before the saves, or the text being saved. *)
Definition each_file_old_or_new (self : scraper) (d0 d : list (path * string))
  : Prop :=
  (Dict.get metadata_file d = Dict.get metadata_file d0
   ∨ Dict.get metadata_file d = Some (json_dump_metadata E (metadata self)))
  ∧ (Dict.get checksums_file d = Dict.get checksums_file d0
     ∨ Dict.get checksums_file d = Some (json_dump_checksums E (checksums self))).

(** The checksum [cleanup_inconsistencies] computes for the file named
    [name], if it finds one. *)
Definition current_checksum (d : list (path * string)) (name : string)
  : option string :=
  match locate d name with
  | Some p => sha256_hexdigest E <$> Dict.get p d
  | None => None
  end.

(** What one turn of the loop makes of the two dictionaries and of the
    issues, with [d] on the disk. *)
Definition checked (d : list (path * string)) (st : scraper * issues)
    (um : url * meta) : scraper * issues :=
  match current_checksum d (filename um.2) with
  | None =>
      ({| metadata := Dict.del um.1 (metadata st.1);
          checksums := if Dict.mem (checksum um.2) (checksums st.1)
                       then Dict.del (checksum um.2) (checksums st.1)
                       else checksums st.1 |},
       {| missing_files := missing_files st.2 ++ [filename um.2];
          checksum_mismatches := checksum_mismatches st.2;
          orphaned_files := orphaned_files st.2 |})
  | Some c =>
      if decide (c = checksum um.2) then st
      else
        ({| metadata := Dict.alter (with_checksum c) um.1 (metadata st.1);
            checksums := Dict.set c um.1 (checksums st.1) |},
         {| missing_files := missing_files st.2;
            checksum_mismatches := checksum_mismatches st.2 ++ [filename um.2];
            orphaned_files := orphaned_files st.2 |})
  end.

(** Who may hold the key [c] of [self.checksums] once the record of [u] was
    dropped: another URL of [all], whose file now hashes to [c]. *)
Definition held_by_other (d : list (path * string)) (all : list (url * meta))
    (u : url) (c : string) (sums : list (string * url)) : Prop :=
  ∀ u', Dict.get c sums = Some u' →
        u' ≠ u ∧ ∃ m', (u', m') ∈ all ∧ current_checksum d (filename m') = Some c.

End vocabulary.

(** ** The loop of the retry scheduler *)

(** What holds of the loop variables whenever the loop condition is tested. *)
Definition job_inv (j : job) : Prop :=
  attempt j ≤ MAX_RETRIES
  ∧ slept j = backoff <$> seq 1 (if success j then attempt j - 1
                                 else attempt j `min` (MAX_RETRIES - 1))
  ∧ (success j = true → Dict.get failure_file (disk (outside j)) = None).

(** ** The invariant of the store (C1) *)

(** No two entries of [self.metadata] have the same checksum. *)
Definition no_shared_checksum (self : scraper) : Prop :=
  ∀ u1 u2 m1 m2,
    Dict.get u1 (metadata self) = Some m1 →
    Dict.get u2 (metadata self) = Some m2 →
    checksum m1 = checksum m2 → u1 = u2.

(** Every key of [self.checksums] is the checksum of the entry of
    [self.metadata] under the URL it is mapped to. *)
Definition index_exact (self : scraper) : Prop :=
  ∀ c u,
    Dict.get c (checksums self) = Some u →
    ∃ m, Dict.get u (metadata self) = Some m ∧ checksum m = c.

(** Every checksum of [self.metadata] is a key of [self.checksums], for the
    URL of its entry. *)
Definition index_complete (self : scraper) : Prop :=
  ∀ u m,
    Dict.get u (metadata self) = Some m →
    Dict.get (checksum m) (checksums self) = Some u.

(** The invariant the two dictionaries are meant to keep: they describe
    the same one-to-one pairing of URLs and checksums. *)
Definition store_ok (self : scraper) : Prop :=
  no_shared_checksum self ∧ index_exact self ∧ index_complete self.

(** ** Runs *)

(** The first cycle of a new installation, up to the consistency check:
    lines 502-508 of [scheduled_job_with_retry]. *)
Definition first_cycle (E : env) : IO (issues * scraper) :=
  self <~ new_scraper E ;;
  r <~ scrape_all E self ;;
  cleanup_inconsistencies E r.2.

(** ** A laboratory environment

    Stand-ins for the library functions, to run the model on concrete
    inputs: the digest of a text is the text itself behind a tag (so distinct
    texts have distinct digests), a dictionary is dumped as its bindings
    between braces, and only the dump of the empty dictionary is read
    back. *)

Module Lab.

Definition digest (bytes : string) : string := "sha256:" +:+ bytes.

Definition dump_metadata (m : list (url * meta)) : string :=
  "{" +:+ String.concat ";" ((λ um, um.1 +:+ "=" +:+ filename um.2 +:+ ","
                                     +:+ checksum um.2) <$> m) +:+ "}".

Definition dump_checksums (c : list (checksum_t * url)) : string :=
  "{" +:+ String.concat ";" ((λ cu, cu.1 +:+ "=" +:+ cu.2) <$> c) +:+ "}".

Definition load_empty {A} (text : string) : option (list A) :=
  if decide (text = "{}") then Some [] else None.

(** The text after the last slash. *)
Fixpoint basename_from (acc : string) (s : string) : string :=
  match s with
  | EmptyString => acc
  | String c r =>
      if decide (c = Ascii.ascii_of_nat 47) then basename_from "" r
      else basename_from (acc +:+ String c "") r
  end.

(** A site with one index page that lists [links]; [bodies] gives what each
    file URL serves, and a URL it does not list cannot be fetched. *)
Definition site (links : list link) (bodies : list (url * string)) : env :=
  {| sha256_hexdigest := digest;
     md5_hex8 := λ _, "d41d8cd9";
     json_dump_metadata := dump_metadata;
     json_load_metadata := load_empty;
     json_dump_checksums := dump_checksums;
     json_load_checksums := load_empty;
     http_get := λ u, Dict.get u bodies;
     page_links := λ page,
       if decide (page = "https://www.uscis.gov/archive/h-1b-employer-data-hub-files")
       then Some links else None;
     url_basename := basename_from "" |}.

(** A world with the given files and coming faults, no history, and a new
    process. *)
Definition world_of (files : list (path * string)) (fs : list fault) : world :=
  {| disk := files; trail := []; faults := fs; clock := "2026-01-01T02:00:00";
     logger := false |}.

End Lab.

(** ** Concrete sites, stores and worlds *)

(** A site without files. *)
Definition empty_site : env := Lab.site [] [].

(** A site whose index page lists two files of the same name, with
    different contents. *)
Definition url_a : string := "https://www.uscis.gov/a/h1b_2024.csv".
Definition url_b : string := "https://www.uscis.gov/b/h1b_2024.csv".

Definition twin_site : env :=
  Lab.site [Link url_a "FY2024"; Link url_b "FY2024 (revised)"]
           [(url_a, "employer,2024"); (url_b, "employer,2024,revised")].

(** The store once both files of [twin_site] are downloaded, and the store
    the consistency check that follows makes of it. *)
Definition twins_downloaded : scraper :=
  {| metadata :=
       [(url_a, {| filename := "h1b_2024.csv";
                   download_date := "2026-01-01T02:00:00";
                   checksum := "sha256:employer,2024";
                   size_bytes := 13 |});
        (url_b, {| filename := "h1b_2024.csv";
                   download_date := "2026-01-01T02:00:00";
                   checksum := "sha256:employer,2024,revised";
                   size_bytes := 21 |})];
     checksums := [("sha256:employer,2024", url_a);
                   ("sha256:employer,2024,revised", url_b)] |}.

Definition twins_repaired : scraper :=
  {| metadata :=
       [(url_a, {| filename := "h1b_2024.csv";
                   download_date := "2026-01-01T02:00:00";
                   checksum := "sha256:employer,2024,revised";
                   size_bytes := 13 |});
        (url_b, {| filename := "h1b_2024.csv";
                   download_date := "2026-01-01T02:00:00";
                   checksum := "sha256:employer,2024,revised";
                   size_bytes := 21 |})];
     checksums := [("sha256:employer,2024", url_a);
                   ("sha256:employer,2024,revised", url_a)] |}.

(** A store with one record, whose file was modified on the disk. *)
Definition url_c : string := "https://www.uscis.gov/c/h2a_2023.csv".

Definition stale_store : scraper :=
  {| metadata := [(url_c, {| filename := "h2a_2023.csv";
                             download_date := "2025-12-01T02:00:00";
                             checksum := "sha256:old";
                             size_bytes := 3 |})];
     checksums := [("sha256:old", url_c)] |}.

Definition modified_disk : world :=
  Lab.world_of [(InVisa "h2a" "h2a_2023.csv", "new")] [].

(** Both state files exist and hold text that [json.load] rejects. *)
Definition corrupt_world : world :=
  Lab.world_of [(metadata_file, "{ broken"); (checksums_file, "{ broken")] [].

(** The disk holds the state files of an empty store, and the next write
    fails. *)
Definition write_fails_world : world :=
  Lab.world_of [(metadata_file, "{}"); (checksums_file, "{}")] [FailAtOpen].

(** The disk holds the state files of an empty store; [fs] are the coming
    faults. *)
Definition saved_empty_world (fs : list fault) : world :=
  Lab.world_of [(metadata_file, "{}"); (checksums_file, "{}")] fs.

(** The file of [url_a] was downloaded before. *)
Definition known_store : scraper :=
  {| metadata := [(url_a, {| filename := "h1b_2024.csv";
                             download_date := "2025-12-01T02:00:00";
                             checksum := "sha256:employer,2024";
                             size_bytes := 13 |})];
     checksums := [("sha256:employer,2024", url_a)] |}.

Definition known_disk : world :=
  Lab.world_of [(InVisa "h1b" "h1b_2024.csv", "employer,2024")] [].


(** ** Vocabulary of the further properties *)

(** No fault strikes the next [n] fallible operations. *)
Definition no_fault_within (n : nat) (w : world) : Prop :=
  Forall (λ f, f = NoFault) (take n (faults w)).

(** The path is not one of [tempfile]: it lies in the download directory. *)
Definition in_download_dir (p : path) : Prop := temp_rank p = 0.

(** [self'] has every entry of [self], unchanged. *)
Definition store_extends (self self' : scraper) : Prop :=
  (∀ u m, Dict.get u (metadata self) = Some m →
          Dict.get u (metadata self') = Some m)
  ∧ (∀ c u, Dict.get c (checksums self) = Some u →
            Dict.get c (checksums self') = Some u).

Section download_vocabulary.
Variable E : env.

(** All it takes for [_download_file] to record the download of [u]: the
    site serves a body, neither the transfer nor the rename meets a fault,
    and neither the URL nor the checksum of the body is known. *)
Definition recordable (self : scraper) (u : url) (w : world) : Prop :=
  ∃ body, http_get E u = Some body
          ∧ no_fault_within 2 w
          ∧ Dict.get u (metadata self) = None
          ∧ Dict.get (sha256_hexdigest E body) (checksums self) = None.

(** Nothing is left to record for [u]: it has a record, or the site does
    not serve it, or the checksum of what the site serves is known. *)
Definition covered (self : scraper) (u : url) : Prop :=
  is_Some (Dict.get u (metadata self))
  ∨ http_get E u = None
  ∨ ∃ body, http_get E u = Some body
            ∧ is_Some (Dict.get (sha256_hexdigest E body) (checksums self)).

(** The states of the disk while [_download_file] runs from [d0]: [d0]
    itself, [d0] with the temporary file, or [d0] with the whole body at the
    destination. *)
Definition download_state (u : url) (dest_path : path)
    (d0 d : list (path * string)) : Prop :=
  d = d0
  ∨ (∃ s, d = Dict.set (fresh_temp d0) s d0)
  ∨ (∃ body, http_get E u = Some body ∧ d = Dict.set dest_path body d0).

(** The store once the download of [body] from [u] to [dest_path] is
    recorded, lines 242-249. *)
Definition recorded (self : scraper) (u : url) (dest_path : path)
    (date body : string) : scraper :=
  {| metadata :=
       Dict.set u {| filename := path_name dest_path;
                     download_date := date;
                     checksum := sha256_hexdigest E body;
                     size_bytes := String.length body |} (metadata self);
     checksums := Dict.set (sha256_hexdigest E body) u (checksums self) |}.

(** The links [scrape_visa_type] works through for a visa type: those
    [_extract_file_links] returns for its page, none for an unknown type. *)
Definition links_of (v : string) : list link :=
  match Dict.get v BASE_URLS with
  | Some page => default [] (page_links E page)
  | None => []
  end.

End download_vocabulary.

(** The four paths the saves write to. *)
Definition state_files : list path :=
  [metadata_file; checksums_file; InRoot "metadata.tmp"; InRoot "checksums.tmp"].

Section checker_vocabulary.
Variable E : env.

(** The consistency check finds no file for the record. *)
Definition file_missing (d : list (path * string)) (um : url * meta) : bool :=
  match current_checksum E d (filename um.2) with
  | None => true
  | Some _ => false
  end.

(** The consistency check finds a file for the record, with another
    checksum than the recorded one. *)
Definition file_changed (d : list (path * string)) (um : url * meta) : bool :=
  match current_checksum E d (filename um.2) with
  | None => false
  | Some c => bool_decide (c ≠ checksum um.2)
  end.

End checker_vocabulary.

(** Every record names a file that exists in one of the visa directories. *)
Definition files_present (self : scraper) (d : list (path * string)) : Prop :=
  Forall (λ um, ∃ v, v ∈ Dict.keys BASE_URLS
                     ∧ is_Some (Dict.get (InVisa v (filename um.2)) d))
    (metadata self).

(** ** Concrete inputs of the further properties *)

(** The store of a new installation. *)
Definition empty_store : scraper := {| metadata := []; checksums := [] |}.

(** A site that lists the same content under two URLs and two names. *)
Definition url_m : string := "https://www.uscis.gov/m/h1b_2024_copy.csv".

Definition mirror_site : env :=
  Lab.site [Link url_a "FY2024"; Link url_m "FY2024 (copy)"]
           [(url_a, "employer,2024"); (url_m, "employer,2024")].

(** [E] with a [json.load] that reads back the dumps of the dictionaries of
    [stores], and nothing else. *)
Definition replaying (E : env) (stores : list scraper) : env :=
  {| sha256_hexdigest := sha256_hexdigest E;
     md5_hex8 := md5_hex8 E;
     json_dump_metadata := json_dump_metadata E;
     json_load_metadata := λ text,
       metadata <$> List.find (λ s, bool_decide
                                 (json_dump_metadata E (metadata s) = text))
                      stores;
     json_dump_checksums := json_dump_checksums E;
     json_load_checksums := λ text,
       checksums <$> List.find (λ s, bool_decide
                                  (json_dump_checksums E (checksums s) = text))
                       stores;
     http_get := http_get E;
     page_links := page_links E;
     url_basename := url_basename E |}.

(** No fault in the next two operations, one in the third. *)
Definition third_write_fails : world :=
  Lab.world_of [] [NoFault; NoFault; FailAtOpen].

(** The file of [stale_store] is on the disk, with the recorded content
    replaced. *)
Definition two_records : scraper :=
  {| metadata := [(url_a, {| filename := "h1b_2024.csv";
                             download_date := "2025-12-01T02:00:00";
                             checksum := "sha256:employer,2024";
                             size_bytes := 13 |});
                  (url_c, {| filename := "h2a_2023.csv";
                             download_date := "2025-12-01T02:00:00";
                             checksum := "sha256:old";
                             size_bytes := 3 |})];
     checksums := [("sha256:employer,2024", url_a); ("sha256:old", url_c)] |}.

Definition one_file_changed : world :=
  Lab.world_of [(InVisa "h1b" "h1b_2024.csv", "employer,2024");
                (InVisa "h2a" "h2a_2023.csv", "new")] [].

(** ** Vocabulary of the retry scheduler *)

(** From [w] to [w'] the file [p] was at no step written, replaced or
    deleted, and a logger that was assigned still is. *)
Definition untouched (p : path) (w w' : world) : Prop :=
  Dict.get p (disk w') = Dict.get p (disk w)
  ∧ (logger w = true → logger w' = true)
  ∧ ∃ steps, trail w' = steps ++ trail w
             ∧ Forall (λ d, Dict.get p d = Dict.get p (disk w)) steps.

(** [m] leaves the file [p] untouched, however it ends, and what it returns
    satisfies [Q]. *)
Definition leaves_with {A} (p : path) (Q : A → Prop) (m : IO A) : Prop :=
  ∀ w, untouched p w (m w).2 ∧ ∀ a, (m w).1 = Returned a → Q a.

(** A file of the download directory that is no state file, no downloaded
    file and no report. *)
Definition aside (p : path) : Prop :=
  in_download_dir p
  ∧ (p ∉ state_files)
  ∧ (∀ v name, p ≠ InVisa v name)
  ∧ (∀ stamp, p ≠ InRoot ("report_" +:+ stamp +:+ ".txt")).




(** * Part III: properties *)

(** ** Dictionaries *)

Section dict_facts.
Context {K V : Type} `{EqDecision K}.
Implicit Types (k : K) (v : V) (d : list (K * V)).

Lemma get_set k' k v d :
  Dict.get k' (Dict.set k v d) = if decide (k' = k) then Some v else Dict.get k' d.
Proof.
  induction d as [|[k0 v0] d IH]; simpl.
  - by destruct (decide (k' = k)).
  - destruct (decide (k = k0)) as [->|Hk]; simpl.
    + by destruct (decide (k' = k0)).
    + destruct (decide (k' = k0)) as [->|Hk'].
      * by rewrite decide_False.
      * apply IH.
Qed.

Lemma get_set_eq k v d : Dict.get k (Dict.set k v d) = Some v.
Proof. by rewrite get_set, decide_True. Qed.

Lemma get_set_ne k' k v d : k' ≠ k → Dict.get k' (Dict.set k v d) = Dict.get k' d.
Proof. intros. by rewrite get_set, decide_False. Qed.

Lemma get_del k' k d :
  Dict.get k' (Dict.del k d) = if decide (k' = k) then None else Dict.get k' d.
Proof.
  induction d as [|[k0 v0] d IH]; simpl.
  - by destruct (decide (k' = k)).
  - destruct (decide (k = k0)) as [->|Hk]; simpl.
    + rewrite IH. destruct (decide (k' = k0)); done.
    + destruct (decide (k' = k0)) as [->|Hk'].
      * by rewrite decide_False.
      * apply IH.
Qed.

Lemma get_del_eq k d : Dict.get k (Dict.del k d) = None.
Proof. by rewrite get_del, decide_True. Qed.

Lemma get_del_ne k' k d : k' ≠ k → Dict.get k' (Dict.del k d) = Dict.get k' d.
Proof. intros. by rewrite get_del, decide_False. Qed.

Lemma get_alter k' k (f : V → V) d :
  Dict.get k' (Dict.alter f k d)
  = if decide (k' = k) then f <$> Dict.get k d else Dict.get k' d.
Proof.
  induction d as [|[k0 v0] d IH]; simpl.
  - by destruct (decide (k' = k)).
  - destruct (decide (k = k0)) as [->|Hk]; simpl.
    + by destruct (decide (k' = k0)).
    + destruct (decide (k' = k0)) as [->|Hk'].
      * by rewrite decide_False.
      * apply IH.
Qed.

Lemma get_alter_ne k' k (f : V → V) d :
  k' ≠ k → Dict.get k' (Dict.alter f k d) = Dict.get k' d.
Proof. intros. by rewrite get_alter, decide_False. Qed.

Lemma mem_true k d : Dict.mem k d = true ↔ is_Some (Dict.get k d).
Proof.
  unfold Dict.mem. destruct (Dict.get k d); split; intros Hm; done.
Qed.

Lemma mem_false k d : Dict.mem k d = false ↔ Dict.get k d = None.
Proof. unfold Dict.mem. by destruct (Dict.get k d). Qed.

Lemma get_Some_keys k v d : Dict.get k d = Some v → k ∈ Dict.keys d.
Proof.
  induction d as [|[k0 v0] d IH]; simpl; [done|].
  destruct (decide (k = k0)) as [->|]; intros Hg.
  - apply list_elem_of_here.
  - apply list_elem_of_further, IH, Hg.
Qed.

Lemma get_elem_of k v d : Dict.get k d = Some v → (k, v) ∈ d.
Proof.
  induction d as [|[k0 v0] d IH]; simpl; [done|].
  destruct (decide (k = k0)) as [->|]; intros Hg.
  - injection Hg as ->. apply list_elem_of_here.
  - apply list_elem_of_further, IH, Hg.
Qed.

Lemma elem_of_get k v d : Dict.wf d → (k, v) ∈ d → Dict.get k d = Some v.
Proof.
  unfold Dict.wf, Dict.keys.
  induction d as [|[k0 v0] d IH]; simpl; intros Hwf Hin.
  - by apply elem_of_nil in Hin.
  - apply NoDup_cons in Hwf as [Hk0 Hwf].
    apply elem_of_cons in Hin as [Heq|Hin].
    + injection Heq as -> ->. by rewrite decide_True.
    + destruct (decide (k = k0)) as [->|]; [|by apply IH].
      exfalso. apply Hk0. apply list_elem_of_fmap. by exists (k0, v).
Qed.

Lemma del_absent k d : Dict.get k d = None → Dict.del k d = d.
Proof.
  induction d as [|[k0 v0] d IH]; simpl; [done|].
  destruct (decide (k = k0)); [done|]. intros Hg. by rewrite IH.
Qed.

Lemma del_set_fresh k v d : Dict.get k d = None → Dict.del k (Dict.set k v d) = d.
Proof.
  induction d as [|[k0 v0] d IH]; simpl.
  - by rewrite decide_True.
  - destruct (decide (k = k0)) as [->|Hk]; [done|].
    intros Hg. simpl. rewrite decide_False by done. by rewrite IH.
Qed.

Lemma set_set k v v' d : Dict.set k v' (Dict.set k v d) = Dict.set k v' d.
Proof.
  induction d as [|[k0 v0] d IH]; simpl.
  - by rewrite decide_True.
  - destruct (decide (k = k0)) as [->|Hk]; simpl.
    + by rewrite decide_True.
    + rewrite decide_False by done. by rewrite IH.
Qed.

End dict_facts.

(** ** The file system *)

Ltac io_unfold :=
  repeat progress
    (unfold path_exists, read_text, unlink, now, next_fault, get_disk, put_disk,
       attempt_io, try_catch, bind, ret, raise in *);
  cbv beta in *.

Lemma substring_full (s : string) : String.substring 0 (String.length s) s = s.
Proof. induction s as [|c s IH]; simpl; [done|]. by rewrite IH. Qed.

(** The name picked for a temporary file is the name of no file. *)
Lemma fresh_temp_absent (d : list (path * string)) :
  Dict.get (fresh_temp d) d = None.
Proof.
  destruct (Dict.get (fresh_temp d) d) as [s|] eqn:Hg; [|done].
  apply get_Some_keys in Hg.
  assert (temp_rank (fresh_temp d) ∈ temp_rank <$> Dict.keys d) as Hin
    by (apply list_elem_of_fmap; eauto).
  apply max_list_elem_of_le in Hin. unfold fresh_temp in Hin at 1.
  simpl in Hin. lia.
Qed.

(** Writing into [p] goes through states that differ from the first one
    at [p] only, and ends with the prefix asked for. *)
Lemma grow_spec (p : path) (text : string) (n : nat) (w : world) :
  ∃ w' steps,
    grow p text n w = (Returned (), w')
    ∧ disk w' = Dict.set p (String.substring 0 n text) (disk w)
    ∧ faults w' = faults w
    ∧ clock w' = clock w
    ∧ trail w' = steps ++ trail w
    ∧ Forall (λ d, ∃ s, d = Dict.set p s (disk w)) steps.
Proof.
  induction n as [|n IH]; simpl.
  - eexists _, [Dict.set p "" (disk w)]. io_unfold. simpl.
    split; [done|]. repeat split; [by destruct text|].
    apply Forall_singleton. by eexists.
  - destruct IH as (w1 & steps & Hrun & Hdisk & Hfaults & Hclock & Htrail & Hsteps).
    eexists _, (Dict.set p (String.substring 0 (S n) text) (disk w) :: steps).
    unfold bind at 1. rewrite Hrun. io_unfold. simpl.
    split; [done|]. simpl. rewrite Hdisk, set_set, Htrail.
    repeat split; try done.
    apply Forall_cons. split; [by eexists | done].
Qed.

Section store_facts.
Variable E : env.

(** ** Loading the store (C3) *)

(** C3, as the code has it: loading never fails.  When the state file is
    absent the store is empty; when the file exists and [json.load] raises
    on it, the error is caught and the store is empty as well.  This holds
    for [metadata.json] and for [checksums.json]. *)
Theorem load_absent_or_unparsable_is_empty (w : world) :
  (Dict.get metadata_file (disk w) = None →
   _load_metadata E w = (Returned [], w))
  ∧ (∀ text, Dict.get metadata_file (disk w) = Some text →
             json_load_metadata E text = None →
             _load_metadata E w = (Returned [], w))
  ∧ (Dict.get checksums_file (disk w) = None →
     _load_checksums E w = (Returned [], w))
  ∧ (∀ text, Dict.get checksums_file (disk w) = Some text →
             json_load_checksums E text = None →
             _load_checksums E w = (Returned [], w)).
Proof.
  unfold _load_metadata, _load_checksums. io_unfold. unfold Dict.mem.
  simpl. repeat split.
  - intros ->. done.
  - intros text Hg Hl. rewrite Hg. simpl. rewrite Hg. simpl. by rewrite Hl.
  - intros ->. done.
  - intros text Hg Hl. rewrite Hg. simpl. rewrite Hg. simpl. by rewrite Hl.
Qed.

(** ** Duplicates (C8) *)

Lemma fetch_to_temp_completes (u : url) (body : string) (w : world) :
  http_get E u = Some body →
  no_fault_next w = true →
  ∃ w1, fetch_to_temp E u w = (Returned (fresh_temp (disk w)), w1)
        ∧ disk w1 = Dict.set (fresh_temp (disk w)) body (disk w)
        ∧ clock w1 = clock w.
Proof.
  intros Hget Hok. unfold fetch_to_temp, named_temporary_file. rewrite Hget.
  unfold no_fault_next in Hok. io_unfold. simpl.
  destruct (faults w) as [|[| |k] fs]; try done.
  - edestruct grow_spec as (w1 & steps & Hrun & Hdisk & _ & Hclock & _).
    rewrite Hrun. eexists. split; [done|].
    rewrite Hdisk, Hclock. simpl. by rewrite set_set, substring_full.
  - edestruct grow_spec as (w1 & steps & Hrun & Hdisk & _ & Hclock & _).
    rewrite Hrun. eexists. split; [done|].
    rewrite Hdisk, Hclock. simpl. by rewrite set_set, substring_full.
Qed.

(** C8: when the transfer completes and the content is a duplicate (the URL
    already has a record, or the checksum of the content is already a key of
    [self.checksums]), [_download_file] returns [False], the scraper it
    returns is the one it was given, so both dictionaries are unchanged, and
    the temporary file is gone: the files on disk are those from before. *)
Theorem duplicate_download_changes_nothing
    (self : scraper) (u : url) (dest_path : path) (body : string) (w : world) :
  http_get E u = Some body →
  no_fault_next w = true →
  Dict.mem u (metadata self) || Dict.mem (sha256_hexdigest E body) (checksums self)
    = true →
  ∃ w', _download_file E self u dest_path w = (Returned (false, self), w')
        ∧ disk w' = disk w
        ∧ Dict.mem (fresh_temp (disk w)) (disk w') = false.
Proof.
  intros Hget Hok Hdup.
  destruct (fetch_to_temp_completes u body w Hget Hok)
    as (w1 & Hfetch & Hdisk & _).
  pose proof (fresh_temp_absent (disk w)) as Hfresh.
  unfold _download_file. unfold bind at 1. unfold attempt_io. rewrite Hfetch.
  assert (_is_duplicate E self u (fresh_temp (disk w)) w1 = (Returned true, w1))
    as Hisdup.
  { unfold _is_duplicate. destruct (Dict.mem u (metadata self)); [done|].
    simpl in Hdup. unfold _calculate_checksum. io_unfold.
    rewrite Hdisk, get_set_eq. by rewrite Hdup. }
  unfold try_catch, bind at 1. rewrite Hisdup. io_unfold.
  rewrite Hdisk, get_set_eq. simpl.
  rewrite del_set_fresh by done.
  eexists. split; [done|]. simpl. split; [done|]. by apply mem_false.
Qed.

(** ** Failed transfers (C9) *)

(** A transfer that breaks raises out of the [with] block, and the
    temporary file exists by then. *)
Lemma fetch_to_temp_breaks (u : url) (w : world) :
  transfer_breaks E u w →
  ∃ e w1 s, fetch_to_temp E u w = (Raised e, w1)
            ∧ disk w1 = Dict.set (fresh_temp (disk w)) s (disk w).
Proof.
  intros Hbreak. unfold fetch_to_temp, named_temporary_file.
  set (tmp := fresh_temp (disk w)).
  destruct Hbreak as [Hget|(body & Hget & Hfault)]; rewrite Hget.
  - io_unfold. simpl. by eexists _, _, _.
  - unfold no_fault_next in Hfault. io_unfold. simpl.
    destruct (faults w) as [|[| |k] fs]; try done.
    + by eexists _, _, _.
    + edestruct grow_spec as (w1 & steps & Hrun & Hdisk & _).
      rewrite Hrun. eexists _, _, _. split; [done|].
      rewrite Hdisk. simpl. by rewrite set_set.
Qed.

(** C9, where the code departs from it: when the transfer raises,
    [_download_file] returns [False] and leaves the scraper as it was, but
    the temporary file it created is still on the disk afterwards. *)
Theorem failed_transfer_leaves_temp_file
    (self : scraper) (u : url) (dest_path : path) (w : world) :
  transfer_breaks E u w →
  ∃ w', _download_file E self u dest_path w = (Returned (false, self), w')
        ∧ Dict.mem (fresh_temp (disk w)) (disk w) = false
        ∧ Dict.mem (fresh_temp (disk w)) (disk w') = true.
Proof.
  intros Hbreak.
  pose proof (fresh_temp_absent (disk w)) as Hfresh.
  destruct (fetch_to_temp_breaks u w Hbreak) as (e & w1 & s & Hfetch & Hdisk).
  unfold _download_file. unfold bind at 1. unfold attempt_io. rewrite Hfetch.
  unfold ret. eexists. split; [done|]. split.
  - by apply mem_false.
  - apply mem_true. rewrite Hdisk, get_set_eq. by eexists.
Qed.

(** C9, the part the code keeps: [_download_file] never raises, so the loop
    of [scrape_visa_type] handles every link of the batch, and after a
    transfer that breaks it goes on with the remaining links, the count and
    the store being as before. *)
Lemma _download_file_returns
    (self : scraper) (u : url) (dest_path : path) (w : world) :
  ∃ b self' w', _download_file E self u dest_path w = (Returned (b, self'), w').
Proof.
  unfold _download_file. unfold bind at 1, attempt_io.
  destruct (fetch_to_temp E u w) as [[tmp|e] w1]; [|by eexists _, _, _].
  unfold try_catch.
  match goal with |- context [bind ?m ?k w1] =>
    destruct (bind m k w1) as [[[b self']|e] w2] end.
  - by eexists _, _, _.
  - io_unfold. unfold Dict.mem.
    destruct (Dict.get tmp (disk w2)) as [s|] eqn:Htmp; simpl;
      rewrite ?Htmp; by eexists _, _, _.
Qed.

Lemma download_links_returns (visa_type : string) (file_links : list link)
    (n : nat) (self : scraper) (w : world) :
  ∃ n' self' w',
    download_links E visa_type file_links n self w = (Returned (n', self'), w').
Proof.
  revert n self w. induction file_links as [|l rest IH]; intros n self w; simpl.
  - by eexists _, _, _.
  - unfold bind.
    edestruct _download_file_returns as (b & self' & w' & ->). apply IH.
Qed.

Lemma batch_goes_on_after_failed_transfer (visa_type : string) (l : link)
    (rest : list link) (n : nat) (self : scraper) (w : world) :
  transfer_breaks E (link_url l) w →
  ∃ w', download_links E visa_type (l :: rest) n self w
        = download_links E visa_type rest n self w'.
Proof.
  intros Hbreak. simpl. unfold bind at 1.
  destruct (fetch_to_temp_breaks _ w Hbreak) as (e & w1 & s & Hfetch & _).
  unfold _download_file. unfold bind at 1, attempt_io. rewrite Hfetch.
  by exists w1.
Qed.

End store_facts.

(** ** Saving the store (C6, C7) *)

(** What [write_text] does, by the fault it meets. *)
Lemma write_text_spec (p : path) (text : string) (w : world) :
  ∃ o w' steps,
    write_text p text w = (o, w')
    ∧ faults w' = tail (faults w)
    ∧ clock w' = clock w
    ∧ trail w' = steps ++ trail w
    ∧ Forall (λ d, ∃ s, d = Dict.set p s (disk w)) steps
    ∧ (if no_fault_next w
       then o = Returned () ∧ disk w' = Dict.set p text (disk w)
       else (∃ e, o = Raised e)
            ∧ (disk w' = disk w ∨ ∃ s, disk w' = Dict.set p s (disk w))).
Proof.
  unfold write_text, no_fault_next. io_unfold.
  destruct (faults w) as [|[| |k] fs] eqn:Hfs; simpl.
  - edestruct grow_spec as (w1 & steps & Hrun & Hdisk & Hfaults & Hclock & Htrail & Hsteps).
    rewrite Hrun. eexists _, _, steps.
    split; [done|]. rewrite Hfaults, Hfs, Hdisk, substring_full. done.
  - edestruct grow_spec as (w1 & steps & Hrun & Hdisk & Hfaults & Hclock & Htrail & Hsteps).
    rewrite Hrun. eexists _, _, steps.
    split; [done|]. rewrite Hfaults, Hdisk, substring_full. done.
  - eexists _, _, []. split; [done|]. simpl. repeat split; eauto.
  - edestruct grow_spec as (w1 & steps & Hrun & Hdisk & Hfaults & Hclock & Htrail & Hsteps).
    rewrite Hrun. eexists _, _, steps.
    split; [done|]. rewrite Hfaults, Hdisk. repeat split; eauto.
Qed.

(** What [replace] does: a single step of the disk, or none. *)
Lemma replace_spec (src dst : path) (w : world) :
  ∃ o w',
    replace src dst w = (o, w')
    ∧ faults w' = tail (faults w)
    ∧ clock w' = clock w
    ∧ match Dict.get src (disk w) with
      | Some s =>
          if no_fault_next w
          then o = Returned ()
               ∧ disk w' = Dict.set dst s (Dict.del src (disk w))
               ∧ trail w' = disk w' :: trail w
          else (∃ e, o = Raised e) ∧ disk w' = disk w ∧ trail w' = trail w
      | None => (∃ e, o = Raised e) ∧ disk w' = disk w ∧ trail w' = trail w
      end.
Proof.
  unfold replace, no_fault_next. io_unfold.
  destruct (faults w) as [|[| |k] fs] eqn:Hfs; simpl;
    destruct (Dict.get src (disk w)) as [s|] eqn:Hsrc; simpl;
    rewrite ?Hsrc, ?Hfs; eexists _, _; (split; [done|]); simpl;
    rewrite ?Hfs; repeat split; eauto.
Qed.

(** The handler of the two saves: the temporary file, if any, is unlinked. *)
Lemma unlink_if_exists_spec (p : path) (w : world) :
  ∃ w' steps,
    (left_over <~ path_exists p ;;
     if left_over then unlink p else ret ()) w = (Returned (), w')
    ∧ clock w' = clock w
    ∧ faults w' = faults w
    ∧ disk w' = Dict.del p (disk w)
    ∧ trail w' = steps ++ trail w
    ∧ Forall (λ d, d = disk w') steps.
Proof.
  io_unfold. unfold Dict.mem. simpl.
  destruct (Dict.get p (disk w)) as [s|] eqn:Hp; simpl; rewrite ?Hp.
  - eexists _, [_]. split; [done|]. simpl. repeat split; try done.
    by apply Forall_singleton.
  - eexists _, []. split; [done|]. simpl. repeat split; try done.
    by rewrite del_absent.
Qed.

Lemma save_text_spec (temp_file target : path) (text : string) (w : world) :
  temp_file ≠ target →
  ∃ w' steps,
    save_text temp_file target text w = (Returned (), w')
    ∧ clock w' = clock w
    ∧ trail w' = steps ++ trail w
    ∧ Forall (save_state temp_file target text (disk w)) (disk w' :: steps)
    ∧ Dict.get temp_file (disk w') = None
    ∧ Dict.get target (disk w')
      = if save_breaks w then Dict.get target (disk w) else Some text.
Proof.
  intros Hne. unfold save_text.
  set (ok := save_state temp_file target text (disk w)).
  assert (∀ s, ok (Dict.set temp_file s (disk w))) as Hset.
  { intros s. split.
    - intros p Hp _. by rewrite get_set_ne.
    - left. by rewrite get_set_ne. }
  assert (ok (disk w)) as Hsame by (split; [done | by left]).
  (* what the handler does, from a state reached without a rename *)
  assert (∀ w2 steps2,
            clock w2 = clock w → trail w2 = steps2 ++ trail w →
            Forall ok steps2 →
            (disk w2 = disk w ∨ ∃ s, disk w2 = Dict.set temp_file s (disk w)) →
            ∃ w' steps',
              (left_over <~ path_exists temp_file ;;
               if left_over then unlink temp_file else ret ()) w2
              = (Returned (), w')
              ∧ clock w' = clock w
              ∧ trail w' = steps' ++ trail w
              ∧ Forall ok (disk w' :: steps')
              ∧ Dict.get temp_file (disk w') = None
              ∧ Dict.get target (disk w') = Dict.get target (disk w))
    as Hhandler.
  { intros w2 steps2 Hclock2 Htrail2 Hsteps2 Hdisk2.
    destruct (unlink_if_exists_spec temp_file w2)
      as (w' & steps' & Hrun & Hclock' & _ & Hdisk' & Htrail' & Hsteps').
    assert (ok (disk w')) as Hok'.
    { rewrite Hdisk'. split.
      - intros p Hp Hp'. rewrite get_del_ne by done.
        destruct Hdisk2 as [->|[s ->]]; [done | by rewrite get_set_ne].
      - left. rewrite get_del_ne by done.
        destruct Hdisk2 as [->|[s ->]]; [done | by rewrite get_set_ne]. }
    exists w', (steps' ++ steps2). split; [done|].
    rewrite Hclock', Htrail', Htrail2, (assoc_L (++)).
    repeat split; try done.
    - apply Forall_cons_2; [done|]. apply Forall_app_2; [|done].
      eapply Forall_impl; [exact Hsteps'|]. by intros d ->.
    - rewrite Hdisk'. apply get_del_eq.
    - rewrite Hdisk', get_del_ne by done.
      destruct Hdisk2 as [->|[s ->]]; [done | by rewrite get_set_ne]. }
  destruct (write_text_spec temp_file text w)
    as (o & w1 & steps & Hwrite & Hfaults1 & Hclock1 & Htrail1 & Hsteps1 & Hcase).
  assert (Forall ok steps) as Hsteps.
  { eapply Forall_impl; [exact Hsteps1|]. intros d [s ->]. apply Hset. }
  unfold try_catch, bind at 1. rewrite Hwrite.
  destruct (no_fault_next w) eqn:Hfirst.
  - (* the write succeeds *)
    destruct Hcase as [-> Hdisk1].
    destruct (replace_spec temp_file target w1)
      as (o2 & w2 & Hrep & _ & Hclock2 & Hcase2).
    rewrite Hrep. rewrite Hdisk1, get_set_eq in Hcase2.
    destruct (no_fault_next w1) eqn:Hsecond.
    + (* and so does the rename *)
      destruct Hcase2 as (-> & Hdisk2 & Htrail2).
      assert (save_breaks w = false) as ->.
      { unfold save_breaks, no_fault_next in *. rewrite Hfaults1 in Hsecond.
        by destruct (faults w) as [|[| |?] [|[| |?] ?]]. }
      assert (ok (disk w2)) as Hw2.
      { rewrite Hdisk2. split.
        - intros p Hp Hp'. by rewrite get_set_ne, get_del_ne, get_set_ne.
        - right. apply get_set_eq. }
      exists w2, (disk w2 :: steps). split; [done|].
      rewrite Hclock2, Htrail2, Htrail1. repeat split; try done.
      * by repeat apply Forall_cons_2.
      * rewrite Hdisk2, get_set_ne, get_del_eq; done.
      * rewrite Hdisk2. apply get_set_eq.
    + (* the rename fails *)
      destruct Hcase2 as ([e ->] & Hdisk2 & Htrail2).
      assert (save_breaks w = true) as ->.
      { unfold save_breaks, no_fault_next in *. rewrite Hfaults1 in Hsecond.
        by destruct (faults w) as [|[| |?] [|[| |?] ?]]. }
      apply (Hhandler w2 steps); try done; try congruence.
      right. exists text. congruence.
  - (* the write fails *)
    destruct Hcase as ([e ->] & Hdisk1).
    assert (save_breaks w = true) as ->.
    { unfold save_breaks, no_fault_next in *.
      by destruct (faults w) as [|[| |?] [|[| |?] ?]]. }
    by apply (Hhandler w1 steps).
Qed.

Section save_facts.
Variable E : env.

Lemma _save_metadata_spec (self : scraper) (w : world) :
  ∃ w' steps,
    _save_metadata E self w = (Returned (), w')
    ∧ clock w' = clock w
    ∧ trail w' = steps ++ trail w
    ∧ Forall (save_state (InRoot "metadata.tmp") metadata_file
                (json_dump_metadata E (metadata self)) (disk w)) (disk w' :: steps)
    ∧ Dict.get (InRoot "metadata.tmp") (disk w') = None
    ∧ Dict.get metadata_file (disk w')
      = if save_breaks w then Dict.get metadata_file (disk w)
        else Some (json_dump_metadata E (metadata self)).
Proof. by apply save_text_spec. Qed.

Lemma _save_checksums_spec (self : scraper) (w : world) :
  ∃ w' steps,
    _save_checksums E self w = (Returned (), w')
    ∧ clock w' = clock w
    ∧ trail w' = steps ++ trail w
    ∧ Forall (save_state (InRoot "checksums.tmp") checksums_file
                (json_dump_checksums E (checksums self)) (disk w)) (disk w' :: steps)
    ∧ Dict.get (InRoot "checksums.tmp") (disk w') = None
    ∧ Dict.get checksums_file (disk w')
      = if save_breaks w then Dict.get checksums_file (disk w)
        else Some (json_dump_checksums E (checksums self)).
Proof. by apply save_text_spec. Qed.

Lemma persist_returns (self : scraper) (w : world) :
  ∃ w', persist E self w = (Returned (), w').
Proof.
  destruct (_save_metadata_spec self w) as (w1 & ? & Hrun1 & _).
  destruct (_save_checksums_spec self w1) as (w2 & ? & Hrun2 & _).
  exists w2. unfold persist, bind. by rewrite Hrun1, Hrun2.
Qed.

(** C6, as the code has it: when an input/output failure strikes
    [_save_metadata] or [_save_checksums], the file saved before keeps its
    text (every file but the temporary one does, and the temporary one is
    gone), and the save returns normally: the exception is caught inside, so
    no error reaches the caller. *)
Theorem failed_save_keeps_file_and_returns (self : scraper) (w : world) :
  save_breaks w = true →
  (∃ w', _save_metadata E self w = (Returned (), w')
         ∧ Dict.get metadata_file (disk w') = Dict.get metadata_file (disk w)
         ∧ (∀ p, p ≠ InRoot "metadata.tmp" → Dict.get p (disk w') = Dict.get p (disk w))
         ∧ Dict.get (InRoot "metadata.tmp") (disk w') = None)
  ∧ (∃ w', _save_checksums E self w = (Returned (), w')
           ∧ Dict.get checksums_file (disk w') = Dict.get checksums_file (disk w)
           ∧ (∀ p, p ≠ InRoot "checksums.tmp" → Dict.get p (disk w') = Dict.get p (disk w))
           ∧ Dict.get (InRoot "checksums.tmp") (disk w') = None).
Proof.
  intros Hbreak. split.
  - destruct (_save_metadata_spec self w)
      as (w' & steps & Hrun & _ & _ & Hstates & Htmp & Htgt).
    rewrite Hbreak in Htgt. apply Forall_cons_1 in Hstates as [[Hoff _] _].
    exists w'. repeat split; try done.
    intros p Hp. destruct (decide (p = metadata_file)) as [->|]; [done|].
    by apply Hoff.
  - destruct (_save_checksums_spec self w)
      as (w' & steps & Hrun & _ & _ & Hstates & Htmp & Htgt).
    rewrite Hbreak in Htgt. apply Forall_cons_1 in Hstates as [[Hoff _] _].
    exists w'. repeat split; try done.
    intros p Hp. destruct (decide (p = checksums_file)) as [->|]; [done|].
    by apply Hoff.
Qed.

(** C7, as the code has it: the two saves always return, and in every state
    the disk goes through while they run, the last one included,
    [metadata.json] has either its former text or the new one, and so has
    [checksums.json]; each file is replaced atomically, the pair is not. *)
Theorem persist_is_atomic_per_file (self : scraper) (w : world) :
  ∃ w' steps,
    persist E self w = (Returned (), w')
    ∧ trail w' = steps ++ trail w
    ∧ Forall (each_file_old_or_new E self (disk w)) (disk w' :: steps).
Proof.
  destruct (_save_metadata_spec self w)
    as (w1 & steps1 & Hrun1 & _ & Htrail1 & Hstates1 & _ & _).
  destruct (_save_checksums_spec self w1)
    as (w2 & steps2 & Hrun2 & _ & Htrail2 & Hstates2 & _ & _).
  exists w2, (steps2 ++ steps1).
  unfold persist, bind. rewrite Hrun1, Hrun2. split; [done|].
  rewrite Htrail2, Htrail1, (assoc_L (++)). split; [done|].
  assert (Forall (each_file_old_or_new E self (disk w)) (disk w1 :: steps1))
    as Hfirst.
  { eapply Forall_impl; [exact Hstates1|]. intros d [Hoff Htgt].
    split; [done|]. left. by apply Hoff. }
  assert (Forall (each_file_old_or_new E self (disk w)) (disk w2 :: steps2))
    as Hsecond.
  { apply Forall_cons_1 in Hfirst as [[Hm1 Hc1] _].
    eapply Forall_impl; [exact Hstates2|]. intros d [Hoff Htgt]. split.
    - by rewrite Hoff.
    - destruct Htgt as [->|Hnew]; [done | by right]. }
  apply Forall_cons_1 in Hfirst as [_ Hfirst].
  apply Forall_cons_1 in Hsecond as [Hw2 Hsecond].
  apply Forall_cons_2; [done|]. by apply Forall_app_2.
Qed.

End save_facts.

(** ** The consistency checker (C4) *)

Section checker_facts.
Variable E : env.

Lemma locate_exists (d : list (path * string)) (name : string) (p : path) :
  locate d name = Some p → is_Some (Dict.get p d).
Proof.
  unfold locate. destruct (List.find _ _) as [q|] eqn:Hfind.
  - intros [= ->]. apply find_some in Hfind as [_ Hmem]. by apply mem_true.
  - destruct (Dict.mem (InRoot name) d) eqn:Hmem; [|done].
    intros [= <-]. by apply mem_true.
Qed.

Lemma check_record_checked (um : url * meta) (st : scraper * issues) (w : world) :
  check_record E um st w = (Returned (checked E (disk w) st um), w).
Proof.
  unfold check_record, checked, current_checksum, _calculate_checksum.
  io_unfold. simpl.
  destruct (locate (disk w) (filename um.2)) as [p|] eqn:Hloc; [|by destruct st].
  destruct (locate_exists _ _ _ Hloc) as [bytes Hp]. rewrite Hp. simpl.
  destruct (decide _); [by destruct st | done].
Qed.

Lemma check_records_checked (items : list (url * meta)) (st : scraper * issues)
    (w : world) :
  check_records E items st w = (Returned (foldl (checked E (disk w)) st items), w).
Proof.
  revert st. induction items as [|um items IH]; intros st; simpl; [done|].
  unfold bind. by rewrite check_record_checked, IH.
Qed.

(** The loop never adds a URL to [self.metadata], and it only appends to
    the lists of issues. *)
Lemma checked_keeps_absent (d : list (path * string)) (st : scraper * issues)
    (um : url * meta) (u : url) :
  Dict.get u (metadata st.1) = None →
  Dict.get u (metadata (checked E d st um).1) = None.
Proof.
  intros Hu. unfold checked.
  destruct (current_checksum E d (filename um.2)) as [c|]; simpl.
  - destruct (decide (c = checksum um.2)); [done|]. simpl.
    rewrite get_alter. destruct (decide (u = um.1)) as [->|]; [|done].
    by rewrite Hu.
  - rewrite get_del. by destruct (decide (u = um.1)).
Qed.

Lemma checked_keeps_missing (d : list (path * string)) (st : scraper * issues)
    (um : url * meta) (name : string) :
  name ∈ missing_files st.2 → name ∈ missing_files (checked E d st um).2.
Proof.
  intros Hin. unfold checked.
  destruct (current_checksum E d (filename um.2)) as [c|]; simpl.
  - by destruct (decide (c = checksum um.2)).
  - apply elem_of_app. by left.
Qed.

Lemma checked_keeps_held (d : list (path * string)) (all : list (url * meta))
    (st : scraper * issues) (um : url * meta) (u : url) (c : string) :
  um ∈ all → um.1 ≠ u →
  held_by_other E d all u c (checksums st.1) →
  held_by_other E d all u c (checksums (checked E d st um).1).
Proof.
  intros Hall Hne Hheld. unfold checked.
  destruct (current_checksum E d (filename um.2)) as [c'|] eqn:Hcur; simpl.
  - destruct (decide (c' = checksum um.2)); [done|]. simpl.
    intros u'. rewrite get_set.
    destruct (decide (c = c')) as [->|]; [|by apply Hheld].
    intros [= <-]. split; [done|]. exists um.2. by destruct um.
  - destruct (Dict.mem (checksum um.2) (checksums st.1)); [|done].
    intros u'. rewrite get_del. destruct (decide _); [done | by apply Hheld].
Qed.

Lemma foldl_checked_after (d : list (path * string)) (all items : list (url * meta))
    (st : scraper * issues) (u : url) (c name : string) :
  items ⊆ all → u ∉ items.*1 →
  Dict.get u (metadata st.1) = None →
  held_by_other E d all u c (checksums st.1) →
  name ∈ missing_files st.2 →
  let st' := foldl (checked E d) st items in
  Dict.get u (metadata st'.1) = None
  ∧ held_by_other E d all u c (checksums st'.1)
  ∧ name ∈ missing_files st'.2.
Proof.
  revert st. induction items as [|um items IH]; intros st Hsub Hu Hmeta Hheld Hname;
    simpl; [done|].
  apply not_elem_of_cons in Hu as [Hne Hu].
  apply IH; try done.
  - intros x Hx. apply Hsub. by apply list_elem_of_further.
  - by apply checked_keeps_absent.
  - apply checked_keeps_held; try done. apply Hsub, list_elem_of_here.
  - by apply checked_keeps_missing.
Qed.

Lemma foldl_checked_missing (d : list (path * string)) (all items : list (url * meta))
    (st : scraper * issues) (u : url) (m : meta) :
  items ⊆ all → NoDup items.*1 → (u, m) ∈ items →
  locate d (filename m) = None →
  let st' := foldl (checked E d) st items in
  Dict.get u (metadata st'.1) = None
  ∧ held_by_other E d all u (checksum m) (checksums st'.1)
  ∧ filename m ∈ missing_files st'.2.
Proof.
  revert st. induction items as [|um items IH]; intros st Hsub Hnd Hin Hloc; simpl.
  - by apply elem_of_nil in Hin.
  - apply NoDup_cons in Hnd as [Hum Hnd].
    assert (items ⊆ all) as Hsub'
      by (intros x Hx; apply Hsub; by apply list_elem_of_further).
    apply elem_of_cons in Hin as [<-|Hin]; [|by apply IH].
    apply foldl_checked_after; try done;
      unfold checked, current_checksum; simpl; rewrite Hloc; simpl.
    + apply get_del_eq.
    + intros u'. destruct (Dict.mem (checksum m) (checksums st.1)) eqn:Hmem.
      * by rewrite get_del_eq.
      * apply mem_false in Hmem. by rewrite Hmem.
    + apply elem_of_app. right. apply list_elem_of_here.
Qed.

(** C4: when the file of a tracked record is found in none of the searched
    directories, [cleanup_inconsistencies] returns, and afterwards the URL of
    the record is no key of [self.metadata], the checksum of the record no
    longer leads to that URL in [self.checksums] (the key is absent, unless
    the repair of another record, whose file now has that checksum, gave the
    key to that record's URL), and the file name of the record is in
    [missing_files] of the report. *)
Theorem missing_file_record_is_removed
    (self : scraper) (w : world) (u : url) (m : meta) :
  Dict.wf (metadata self) →
  (u, m) ∈ metadata self →
  locate (disk w) (filename m) = None →
  ∃ found self' w',
    cleanup_inconsistencies E self w = (Returned (found, self'), w')
    ∧ Dict.get u (metadata self') = None
    ∧ Dict.get (checksum m) (checksums self') ≠ Some u
    ∧ held_by_other E (disk w) (metadata self) u (checksum m) (checksums self')
    ∧ filename m ∈ missing_files found.
Proof.
  intros Hwf Hin Hloc. unfold cleanup_inconsistencies.
  unfold bind at 1. rewrite check_records_checked.
  set (st := foldl (checked E (disk w)) _ _).
  destruct (foldl_checked_missing (disk w) (metadata self) (metadata self)
              (self, {| missing_files := []; checksum_mismatches := [];
                        orphaned_files := [] |}) u m)
    as (Hmeta & Hheld & Hname); try done.
  fold st in Hmeta, Hheld, Hname.
  assert (∃ w', (match missing_files st.2, checksum_mismatches st.2 with
                 | [], [] => ret ()
                 | _, _ => _save_metadata E st.1 ;;; _save_checksums E st.1
                 end) w = (Returned (), w')) as [w' Hsave].
  { destruct (missing_files st.2), (checksum_mismatches st.2);
      try (by eexists);
      destruct (persist_returns E st.1 w) as (w' & Hrun); by exists w'. }
  io_unfold. simpl. rewrite Hsave.
  eexists _, _, _. split; [done|]. simpl.
  split; [done|]. split; [|by split].
  intros Hbad. by destruct (Hheld u Hbad).
Qed.

End checker_facts.

(** ** The retry scheduler (C2, C10) *)

Lemma bind_returned {A B} (m : IO A) (k : A → IO B) (w w' : world) (b : B) :
  bind m k w = (Returned b, w') →
  ∃ a w1, m w = (Returned a, w1) ∧ k a w1 = (Returned b, w').
Proof.
  unfold bind. destruct (m w) as [[a|e] w1]; [|done]. intros Hk. by exists a, w1.
Qed.


(** ** What the operations leave untouched *)

Lemma untouched_same (p : path) (w w' : world) :
  disk w' = disk w → trail w' = trail w → (logger w = true → logger w' = true) →
  untouched p w w'.
Proof.
  intros Hd Ht Hl. split; [by rewrite Hd|]. split; [done|].
  exists []. by rewrite Ht.
Qed.

Lemma untouched_refl (p : path) (w : world) : untouched p w w.
Proof. by apply untouched_same. Qed.

Lemma untouched_trans (p : path) (w1 w2 w3 : world) :
  untouched p w1 w2 → untouched p w2 w3 → untouched p w1 w3.
Proof.
  intros (Hd1 & Hl1 & s1 & Ht1 & Hs1) (Hd2 & Hl2 & s2 & Ht2 & Hs2).
  split; [congruence|]. split; [auto|]. exists (s2 ++ s1). split.
  - by rewrite Ht2, Ht1, (assoc_L (++)).
  - apply Forall_app. split; [|done].
    eapply Forall_impl; [exact Hs2|]. simpl. intros d Hd. congruence.
Qed.

Lemma untouched_put (p : path) (d : list (path * string)) (w : world) :
  Dict.get p d = Dict.get p (disk w) → untouched p w (put_disk d w).2.
Proof.
  intros Hd. split; [done|]. split; [done|]. exists [d]. split; [done|].
  by apply Forall_singleton.
Qed.

Lemma leaves_weaken {A} (p : path) (Q R : A → Prop) (m : IO A) :
  (∀ a, Q a → R a) → leaves_with p Q m → leaves_with p R m.
Proof. intros HQR Hm w. destruct (Hm w) as [Hu Hq]. split; [done | auto]. Qed.

Lemma leaves_ret {A} (p : path) (Q : A → Prop) (a : A) :
  Q a → leaves_with p Q (ret a).
Proof.
  intros Hq w. split; [apply untouched_refl|]. by intros a' [= <-].
Qed.

Lemma leaves_raise {A} (p : path) (Q : A → Prop) (e : exn) :
  leaves_with p Q (raise e).
Proof. intros w. split; [apply untouched_refl | done]. Qed.

Lemma leaves_bind {A B} (p : path) (Q : A → Prop) (R : B → Prop)
    (m : IO A) (k : A → IO B) :
  leaves_with p Q m → (∀ a, Q a → leaves_with p R (k a)) →
  leaves_with p R (bind m k).
Proof.
  intros Hm Hk w. unfold bind. destruct (Hm w) as [Hu Hq].
  destruct (m w) as [[a|e] w1]; simpl in *.
  - destruct (Hk a (Hq a eq_refl) w1) as [Hu' Hr].
    split; [by eapply untouched_trans | done].
  - split; [done|]. by intros a.
Qed.

Lemma leaves_try_catch {A} (p : path) (Q : A → Prop) (m : IO A)
    (h : exn → IO A) :
  leaves_with p Q m → (∀ e, leaves_with p Q (h e)) →
  leaves_with p Q (try_catch m h).
Proof.
  intros Hm Hh w. unfold try_catch. destruct (Hm w) as [Hu Hq].
  destruct (m w) as [[a|e] w1]; simpl in *; [done|].
  destruct (Hh e w1) as [Hu' Hr]. split; [by eapply untouched_trans | done].
Qed.

Lemma leaves_attempt_io {A} (p : path) (Q : A → Prop) (m : IO A) :
  leaves_with p Q m →
  leaves_with p (λ r, match r with inr a => Q a | inl _ => True end)
    (attempt_io m).
Proof.
  intros Hm w. unfold attempt_io. destruct (Hm w) as [Hu Hq].
  destruct (m w) as [[a|e] w1]; simpl in *.
  - split; [done|]. intros r [= <-]. by apply Hq.
  - split; [done|]. by intros r [= <-].
Qed.

Lemma leaves_get_disk (p : path) : leaves_with p (λ _, True) get_disk.
Proof. intros w. split; [apply untouched_refl | done]. Qed.

Lemma leaves_now (p : path) : leaves_with p (λ _, True) now.
Proof. intros w. split; [apply untouched_refl | done]. Qed.

Lemma leaves_next_fault (p : path) : leaves_with p (λ _, True) next_fault.
Proof.
  intros w. unfold next_fault. split; [|done].
  destruct (faults w); [apply untouched_refl | by apply untouched_same].
Qed.

Lemma leaves_path_exists (p q : path) : leaves_with p (λ _, True) (path_exists q).
Proof. intros w. split; [apply untouched_refl | done]. Qed.

Lemma leaves_read_text (p q : path) : leaves_with p (λ _, True) (read_text q).
Proof.
  intros w. unfold read_text, bind, get_disk. split; [|done].
  destruct (Dict.get q (disk w)); apply untouched_refl.
Qed.

Lemma leaves_logger_call (p : path) : leaves_with p (λ _, True) logger_call.
Proof.
  intros w. unfold logger_call. split; [|done].
  destruct (logger w); apply untouched_refl.
Qed.

Lemma leaves_assign_logger (p : path) : leaves_with p (λ _, True) assign_logger.
Proof. intros w. split; [by apply untouched_same | done]. Qed.

Lemma leaves_mkdir (p q : path) : leaves_with p (λ _, True) (mkdir q).
Proof.
  intros w. unfold mkdir, bind, get_disk. split; [|done].
  destruct (Dict.mem q (disk w)); apply untouched_refl.
Qed.

Lemma leaves_unlink (p q : path) : q ≠ p → leaves_with p (λ _, True) (unlink q).
Proof.
  intros Hq w. unfold unlink, bind, get_disk. split; [|done].
  destruct (Dict.get q (disk w)); [|apply untouched_refl].
  apply untouched_put. by apply get_del_ne.
Qed.

Lemma leaves_set (p q : path) (s : string) :
  q ≠ p → leaves_with p (λ _, True) (d <~ get_disk ;; put_disk (Dict.set q s d)).
Proof.
  intros Hq w. unfold bind, get_disk. split; [|done].
  apply untouched_put. by apply get_set_ne.
Qed.

Lemma leaves_grow (p q : path) (text : string) (n : nat) :
  q ≠ p → leaves_with p (λ _, True) (grow q text n).
Proof.
  intros Hq. induction n as [|n IH]; simpl.
  - by apply leaves_set.
  - eapply leaves_bind; [exact IH|]. intros _ _. by apply leaves_set.
Qed.

Lemma leaves_write_text (p q : path) (text : string) :
  q ≠ p → leaves_with p (λ _, True) (write_text q text).
Proof.
  intros Hq. unfold write_text.
  eapply leaves_bind; [apply leaves_next_fault|]. intros [| |k] _.
  - by apply leaves_grow.
  - apply leaves_raise.
  - eapply leaves_bind; [by apply leaves_grow|]. intros _ _. apply leaves_raise.
Qed.

Lemma leaves_replace (p src dst : path) :
  src ≠ p → dst ≠ p → leaves_with p (λ _, True) (replace src dst).
Proof.
  intros Hsrc Hdst. unfold replace.
  eapply leaves_bind; [apply leaves_next_fault|]. intros [| |k] _;
    [|apply leaves_raise..].
  intros w. unfold bind, get_disk. split; [|done].
  destruct (Dict.get src (disk w)); [|apply untouched_refl].
  apply untouched_put. by rewrite get_set_ne, get_del_ne.
Qed.

Lemma leaves_named_temporary_file (p : path) :
  in_download_dir p → leaves_with p (λ tmp_file, tmp_file ≠ p) named_temporary_file.
Proof.
  intros Hp w. unfold named_temporary_file, bind, get_disk, ret.
  assert (fresh_temp (disk w) ≠ p) as Hne.
  { intros <-. unfold in_download_dir, fresh_temp in Hp. by simpl in Hp. }
  split.
  - apply untouched_put. by apply get_set_ne.
  - by intros a [= <-].
Qed.

Section state_frame.
Variable E : env.
Variable p : path.

Lemma leaves_save_text (temp_file target : path) (text : string) :
  temp_file ≠ p → target ≠ p →
  leaves_with p (λ _, True) (save_text temp_file target text).
Proof.
  intros Htemp Htarget. unfold save_text. apply leaves_try_catch.
  - eapply leaves_bind; [by apply leaves_write_text|]. intros _ _.
    by apply leaves_replace.
  - intros _. eapply leaves_bind; [apply leaves_path_exists|]. intros [] _;
      [by apply leaves_unlink | by apply leaves_ret].
Qed.

Lemma leaves__calculate_checksum (q : path) :
  leaves_with p (λ _, True) (_calculate_checksum E q).
Proof.
  unfold _calculate_checksum.
  eapply leaves_bind; [apply leaves_read_text|]. intros bytes _.
  by apply leaves_ret.
Qed.

Lemma leaves_check_records (items : list (url * meta)) (st : scraper * issues) :
  leaves_with p (λ _, True) (check_records E items st).
Proof.
  revert st. induction items as [|um rest IH]; intros st; simpl.
  - by apply leaves_ret.
  - eapply (leaves_bind _ (λ _, True)); [|intros st' _; apply IH].
    unfold check_record.
    eapply leaves_bind; [apply leaves_get_disk|]. intros d _.
    destruct (locate d (filename um.2)) as [filepath|]; [|by apply leaves_ret].
    eapply leaves_bind; [apply leaves__calculate_checksum|]. intros c _.
    case_decide; by apply leaves_ret.
Qed.

Hypothesis Hstate : p ∉ state_files.

Lemma not_state_file_ne (q : path) : q ∈ state_files → q ≠ p.
Proof using Type*. by intros Hq <-. Qed.

Lemma leaves__save_metadata (self : scraper) :
  leaves_with p (λ _, True) (_save_metadata E self).
Proof using Type*.
  apply (leaves_save_text (InRoot "metadata.tmp") metadata_file);
    apply not_state_file_ne; unfold state_files; by repeat constructor.
Qed.

Lemma leaves__save_checksums (self : scraper) :
  leaves_with p (λ _, True) (_save_checksums E self).
Proof using Type*.
  apply (leaves_save_text (InRoot "checksums.tmp") checksums_file);
    apply not_state_file_ne; unfold state_files; by repeat constructor.
Qed.

Lemma leaves_cleanup_inconsistencies (self : scraper) :
  leaves_with p (λ _, True) (cleanup_inconsistencies E self).
Proof using Type*.
  unfold cleanup_inconsistencies.
  eapply leaves_bind; [apply leaves_check_records|]. intros st _.
  eapply leaves_bind; [apply leaves_get_disk|]. intros d _.
  eapply leaves_bind; [|intros _ _; by apply leaves_ret].
  simpl.
  destruct (missing_files st.2); [destruct (checksum_mismatches st.2)|];
    first [by apply (leaves_ret p (λ _, True))
          |eapply leaves_bind;
             [apply leaves__save_metadata
             |intros _ _; apply leaves__save_checksums]].
Qed.

End state_frame.

Section leaves_facts.
Variable E : env.
Variable p : path.
Hypothesis Hp : aside p.

Lemma leaves__load_metadata : leaves_with p (λ _, True) (_load_metadata E).
Proof using Type*.
  unfold _load_metadata.
  eapply leaves_bind; [apply leaves_path_exists|]. intros [] _;
    [|by apply leaves_ret].
  apply leaves_try_catch; [|intros _; by apply leaves_ret].
  eapply leaves_bind; [apply leaves_read_text|]. intros text _.
  destruct (json_load_metadata E text); [by apply leaves_ret | apply leaves_raise].
Qed.

Lemma leaves__load_checksums : leaves_with p (λ _, True) (_load_checksums E).
Proof using Type*.
  unfold _load_checksums.
  eapply leaves_bind; [apply leaves_path_exists|]. intros [] _;
    [|by apply leaves_ret].
  apply leaves_try_catch; [|intros _; by apply leaves_ret].
  eapply leaves_bind; [apply leaves_read_text|]. intros text _.
  destruct (json_load_checksums E text); [by apply leaves_ret | apply leaves_raise].
Qed.

Lemma leaves_new_scraper : leaves_with p (λ _, True) (new_scraper E).
Proof using Type*.
  unfold new_scraper.
  eapply leaves_bind; [apply leaves__load_metadata|]. intros m _.
  eapply leaves_bind; [apply leaves__load_checksums|]. intros c _.
  by apply leaves_ret.
Qed.

(** The constructor once the logger is assigned, lines 76-83. *)
Lemma leaves_rest_of_init :
  leaves_with p (λ _, True)
    (foldr (λ visa_type rest, mkdir (InRoot visa_type) ;;; rest) (ret ())
           ["h1b"; "h2a"; "h2b"] ;;;
     self <~ new_scraper E ;;
     logger_call ;;;
     ret self).
Proof using Type*.
  eapply leaves_bind.
  - simpl. repeat (eapply leaves_bind; [apply leaves_mkdir | intros _ _]).
    by apply (leaves_ret p (λ _, True)).
  - intros _ _. eapply leaves_bind; [apply leaves_new_scraper|]. intros self _.
    eapply leaves_bind; [apply leaves_logger_call|]. intros _ _.
    by apply leaves_ret.
Qed.

Lemma leaves__is_duplicate (self : scraper) (u : url) (q : path) :
  leaves_with p (λ _, True) (_is_duplicate E self u q).
Proof using Type*.
  unfold _is_duplicate. destruct (Dict.mem u (metadata self));
    [by apply leaves_ret|].
  eapply leaves_bind; [apply leaves__calculate_checksum|]. intros c _.
  destruct (Dict.mem c (checksums self)); by apply leaves_ret.
Qed.

Lemma leaves_fetch_to_temp (u : url) :
  leaves_with p (λ tmp_path, tmp_path ≠ p) (fetch_to_temp E u).
Proof using Type*.
  destruct Hp as (Hdir & _). unfold fetch_to_temp.
  eapply leaves_bind; [by apply leaves_named_temporary_file|].
  intros tmp_file Htmp. destruct (http_get E u) as [body|];
    [|apply leaves_raise].
  eapply leaves_bind; [apply leaves_next_fault|]. intros [| |k] _.
  - eapply leaves_bind; [by apply leaves_grow|]. intros _ _. by apply leaves_ret.
  - apply leaves_raise.
  - eapply leaves_bind; [by apply leaves_grow|]. intros _ _. apply leaves_raise.
Qed.

Lemma leaves__download_file (self : scraper) (u : url) (dest_path : path) :
  dest_path ≠ p →
  leaves_with p (λ _, True) (_download_file E self u dest_path).
Proof using Type*.
  intros Hdest. unfold _download_file.
  eapply leaves_bind; [apply leaves_attempt_io, leaves_fetch_to_temp|].
  intros [e|tmp_path] Htmp; [by apply leaves_ret|].
  apply leaves_try_catch.
  - eapply leaves_bind; [apply leaves__is_duplicate|]. intros [] _.
    + eapply leaves_bind; [by apply leaves_unlink|]. intros _ _.
      by apply leaves_ret.
    + eapply leaves_bind; [by apply leaves_replace|]. intros _ _.
      eapply leaves_bind; [apply leaves__calculate_checksum|]. intros c _.
      eapply leaves_bind; [apply leaves_now|]. intros date _.
      eapply leaves_bind;
        [unfold stat_size; eapply leaves_bind;
           [apply leaves_read_text | intros bytes _;
            by apply (leaves_ret p (λ _, True))]|].
      intros size _. by apply leaves_ret.
  - intros _. eapply leaves_bind; [apply leaves_path_exists|]. intros left_over _.
    eapply leaves_bind; [|intros _ _; by apply leaves_ret].
    destruct left_over;
      [by apply leaves_unlink | by apply (leaves_ret p (λ _, True))].
Qed.

Lemma leaves_download_links (visa_type : string) (file_links : list link)
    (n : nat) (self : scraper) :
  leaves_with p (λ _, True) (download_links E visa_type file_links n self).
Proof using Type*.
  revert n self. induction file_links as [|l rest IH]; intros n self; simpl.
  - by apply leaves_ret.
  - eapply leaves_bind; [|intros r _; apply IH].
    apply leaves__download_file. destruct Hp as (_ & _ & Hvisa & _).
    intros Heq. by eapply Hvisa.
Qed.

Lemma leaves_scrape_visa_type (self : scraper) (visa_type : string) :
  leaves_with p (λ _, True) (scrape_visa_type E self visa_type).
Proof using Type*.
  unfold scrape_visa_type. destruct (Dict.get visa_type BASE_URLS) as [page|];
    [|by apply leaves_ret].
  eapply leaves_bind.
  - unfold _extract_file_links.
    destruct (page_links E page); by apply (leaves_ret p (λ _, True)).
  - intros [|l rest] _; [by apply leaves_ret | apply leaves_download_links].
Qed.

Lemma leaves_scrape_each (visa_types : list string)
    (results : list (string * nat)) (self : scraper) :
  leaves_with p (λ _, True) (scrape_each E visa_types results self).
Proof using Type*.
  revert results self.
  induction visa_types as [|v rest IH]; intros results self; simpl.
  - by apply leaves_ret.
  - eapply leaves_bind; [apply leaves_scrape_visa_type|]. intros r _. apply IH.
Qed.

Lemma leaves_scrape_all (self : scraper) :
  leaves_with p (λ _, True) (scrape_all E self).
Proof using Type*.
  unfold scrape_all.
  eapply leaves_bind; [apply leaves_scrape_each|]. intros r _.
  eapply leaves_bind; [apply leaves__save_metadata, Hp|]. intros _ _.
  eapply leaves_bind; [apply leaves__save_checksums, Hp|]. intros _ _.
  by apply leaves_ret.
Qed.

Lemma leaves_generate_report (self : scraper) :
  leaves_with p (λ _, True) (generate_report self).
Proof using Type*.
  unfold generate_report.
  eapply leaves_bind; [apply leaves_now|]. intros stamp _.
  eapply leaves_bind; [|intros _ _; by apply leaves_ret].
  apply leaves_write_text. destruct Hp as (_ & _ & _ & Hreport).
  intros Heq. by eapply Hreport.
Qed.

End leaves_facts.

Lemma failure_file_aside : aside failure_file.
Proof.
  split; [done|]. split; [|by split].
  unfold state_files. intros Hin.
  repeat (apply elem_of_cons in Hin as [?|Hin]; [done|]).
  by apply elem_of_nil in Hin.
Qed.


Lemma bind_cases {A B} (m : IO A) (k : A → IO B) (w : world) :
  (∃ a w1, m w = (Returned a, w1) ∧ bind m k w = k a w1)
  ∨ (∃ e w1, m w = (Raised e, w1) ∧ bind m k w = (Raised e, w1)).
Proof.
  unfold bind. destruct (m w) as [[a|e] w1]; [left | right]; by eexists _, _.
Qed.

Section scheduler_facts.
Variable E : env.

(** With a file in the way of the directory of the logs the constructor
    raises at once, before the logger is assigned. *)
Lemma init_blocked (w : world) :
  Dict.mem (InRoot "logs") (disk w) = true →
  __init__ E w = (Raised OSError, w).
Proof.
  intros Hlogs. unfold __init__, setup_logging, mkdir, bind, get_disk.
  by rewrite Hlogs.
Qed.

(** Without one, it goes on with the logger assigned. *)
Lemma init_open (w : world) :
  Dict.mem (InRoot "logs") (disk w) = false →
  __init__ E w
  = (foldr (λ visa_type rest, mkdir (InRoot visa_type) ;;; rest) (ret ())
           ["h1b"; "h2a"; "h2b"] ;;;
     self <~ new_scraper E ;;
     logger_call ;;;
     ret self)
      {| disk := disk w; trail := trail w; faults := faults w;
         clock := clock w; logger := true |}.
Proof.
  intros Hlogs. unfold __init__, setup_logging.
  unfold bind at 1. unfold mkdir at 1. unfold bind at 1, get_disk at 1.
  rewrite Hlogs. reflexivity.
Qed.

(** A step of a cycle whose logger is assigned: the files aside stay
    untouched and the logger stays assigned. *)
Lemma cycle_step {A} (m : IO A) (w wa : world) :
  (∀ p, aside p → leaves_with p (λ _, True) m) →
  (∀ p, aside p → untouched p w wa) → logger wa = true →
  (∀ p, aside p → untouched p w (m wa).2) ∧ logger (m wa).2 = true.
Proof.
  intros Hm Hw Hlog. split.
  - intros p Hp. eapply untouched_trans; [by apply Hw|]. by apply Hm.
  - destruct (Hm _ failure_file_aside wa) as [(_ & Hl & _) _]. by apply Hl.
Qed.

(** How a cycle ends: it returns and there is no failure flag, or it raises
    and the files aside were not touched, the failure flag among them. *)
Lemma run_cycle_ends (w : world) :
  ∃ o w', run_cycle E w = (o, w')
    ∧ ((∃ x, o = Returned x) → Dict.get failure_file (disk w') = None)
    ∧ ((∃ e, o = Raised e) →
       (∀ p, aside p → untouched p w w')
       ∧ (Dict.mem (InRoot "logs") (disk w) = true → w' = w)
       ∧ (Dict.mem (InRoot "logs") (disk w) = false → logger w' = true)).
Proof.
  destruct (Dict.mem (InRoot "logs") (disk w)) eqn:Hlogs.
  { exists (Raised OSError), w. unfold run_cycle, bind at 1.
    rewrite init_blocked by done. split; [done|]. split; [by intros [x ?]|].
    intros _. split; [|done]. intros p _. apply untouched_refl. }
  set (w1 := {| disk := disk w; trail := trail w; faults := faults w;
                clock := clock w; logger := true |}).
  assert (∀ p, aside p → untouched p w w1) as Hw1
    by (intros p _; by apply untouched_same).
  assert (∀ w', (∀ p, aside p → untouched p w w') → logger w' = true →
          (∀ p, aside p → untouched p w w')
          ∧ (false = true → w' = w) ∧ (false = false → logger w' = true))
    as Hraised by (intros; done).
  unfold run_cycle.
  destruct (bind_cases (__init__ E) (λ self,
              r <~ scrape_all E self ;;
              i <~ cleanup_inconsistencies E r.2 ;;
              cleanup_old_logs i.2 ;;;
              generate_report i.2 ;;;
              logger_call ;;;
              flagged <~ path_exists failure_file ;;
              if flagged then unlink failure_file ;;; logger_call else ret ()) w)
    as [(self & w2 & Hm & ->)|(e & w2 & Hm & ->)];
    (assert ((∀ p, aside p → untouched p w w2) ∧ logger w2 = true)
       as [Hw2 Hl2];
     [ rewrite init_open in Hm by done; fold w1 in Hm;
       pose proof (cycle_step _ w w1
                     (λ p Hp, leaves_rest_of_init E p Hp) Hw1 eq_refl) as Hstep;
       by rewrite Hm in Hstep
     | ]);
    [|exists (Raised e), w2; split; [done|]; split;
        [by intros [x ?] | intros _; by apply Hraised]].
  destruct (bind_cases (scrape_all E self) (λ r,
              i <~ cleanup_inconsistencies E r.2 ;;
              cleanup_old_logs i.2 ;;;
              generate_report i.2 ;;;
              logger_call ;;;
              flagged <~ path_exists failure_file ;;
              if flagged then unlink failure_file ;;; logger_call else ret ()) w2)
    as [(r & w3 & Hm3 & ->)|(e & w3 & Hm3 & ->)];
    (pose proof (cycle_step _ w w2
                   (λ p Hp, leaves_scrape_all E p Hp self) Hw2 Hl2) as [Hw3 Hl3];
     rewrite Hm3 in Hw3, Hl3; simpl in Hw3, Hl3);
    [|exists (Raised e), w3; split; [done|]; split;
        [by intros [x ?] | intros _; by apply Hraised]].
  destruct (bind_cases (cleanup_inconsistencies E r.2) (λ i,
              cleanup_old_logs i.2 ;;;
              generate_report i.2 ;;;
              logger_call ;;;
              flagged <~ path_exists failure_file ;;
              if flagged then unlink failure_file ;;; logger_call else ret ()) w3)
    as [(i & w4 & Hm4 & ->)|(e & w4 & Hm4 & ->)];
    (pose proof (cycle_step _ w w3
                   (λ p Hp, leaves_cleanup_inconsistencies E p (proj1 (proj2 Hp)) r.2) Hw3 Hl3)
       as [Hw4 Hl4];
     rewrite Hm4 in Hw4, Hl4; simpl in Hw4, Hl4);
    [|exists (Raised e), w4; split; [done|]; split;
        [by intros [x ?] | intros _; by apply Hraised]].
  unfold cleanup_old_logs. unfold bind at 1, ret at 1.
  destruct (bind_cases (generate_report i.2) (λ _,
              logger_call ;;;
              flagged <~ path_exists failure_file ;;
              if flagged then unlink failure_file ;;; logger_call else ret ()) w4)
    as [(report & w5 & Hm5 & ->)|(e & w5 & Hm5 & ->)];
    (pose proof (cycle_step _ w w4
                   (λ p Hp, leaves_generate_report p Hp i.2) Hw4 Hl4)
       as [Hw5 Hl5];
     rewrite Hm5 in Hw5, Hl5; simpl in Hw5, Hl5);
    [|exists (Raised e), w5; split; [done|]; split;
        [by intros [x ?] | intros _; by apply Hraised]].
  clear Hm Hm3 Hm4 Hm5. unfold logger_call. io_unfold.
  rewrite Hl5. unfold Dict.mem.
  destruct (Dict.get failure_file (disk w5)) as [text|] eqn:Hflag; simpl.
  - rewrite Hflag. simpl. rewrite Hl5. eexists _, _. split; [done|]. simpl.
    split; [intros _; apply get_del_eq | by intros [e ?]].
  - eexists _, _. split; [done|]. split; [done | by intros [e ?]].
Qed.


Lemma attempt_once_inv (j : job) :
  job_inv j → attempt j < MAX_RETRIES → success j = false →
  job_inv (attempt_once E j) ∧ attempt (attempt_once E j) = S (attempt j).
Proof.
  intros (Hle & Hslept & _) Hlt Hfail. rewrite Hfail in Hslept.
  unfold attempt_once, job_inv.
  destruct (run_cycle_ends (outside j)) as (o & w' & Hrun & Hflag & _).
  rewrite Hrun. destruct o as [x|e]; cbn [attempt success slept outside].
  - split; [|done]. split; [lia|]. split.
    + rewrite Hslept. do 2 f_equal. unfold MAX_RETRIES in *. lia.
    + intros _. apply Hflag. by exists x.
  - split; [|done]. rewrite Hfail. split; [lia|]. split; [|done].
    case_decide as Hn.
    + rewrite Hslept.
      replace (attempt j `min` (MAX_RETRIES - 1)) with (attempt j)
        by (unfold MAX_RETRIES in *; lia).
      replace (S (attempt j) `min` (MAX_RETRIES - 1)) with (S (attempt j))
        by (unfold MAX_RETRIES in *; lia).
      by rewrite seq_S, fmap_app.
    + rewrite Hslept. do 2 f_equal. unfold MAX_RETRIES in *. lia.
Qed.

(** The loop ends within [MAX_RETRIES] turns, by its own condition. *)
Lemma retry_loop_ends (turns : nat) (j : job) :
  MAX_RETRIES - attempt j ≤ turns → job_inv j →
  ∃ j', retry_loop E turns j = Some j'
        ∧ job_inv j'
        ∧ (success j' = true ∨ attempt j' = MAX_RETRIES).
Proof.
  revert j. induction turns as [|turns IH]; intros j Hturns Hinv; simpl.
  - case_decide as Hcond; [lia|]. exists j. split; [done|]. split; [done|].
    destruct Hinv as (Hle & _). destruct (success j); [by left|].
    right. apply not_and_l in Hcond as [?|?]; [lia | done].
  - case_decide as Hcond.
    + destruct Hcond as [Hlt Hfail].
      destruct (attempt_once_inv j Hinv Hlt Hfail) as [Hinv' Hatt].
      apply IH; [lia | done].
    + exists j. split; [done|]. split; [done|].
      destruct Hinv as (Hle & _). destruct (success j); [by left|].
      right. apply not_and_l in Hcond as [?|?]; [lia | done].
Qed.

Lemma job_inv_start (w : world) :
  job_inv {| attempt := 0; success := false; slept := []; outside := w |}.
Proof. unfold job_inv, MAX_RETRIES. simpl. repeat split; [lia | done]. Qed.







End scheduler_facts.

(** ** The invariant of the store, step by step (C1, C5) *)

(** Recording a new URL with a new checksum keeps the invariant. *)
Lemma record_keeps_invariant (self : scraper) (u : url) (m : meta) :
  store_ok self →
  Dict.get u (metadata self) = None →
  Dict.get (checksum m) (checksums self) = None →
  store_ok {| metadata := Dict.set u m (metadata self);
              checksums := Dict.set (checksum m) u (checksums self) |}.
Proof.
  intros (Hshared & Hexact & Hcomplete) Hu Hc. repeat split.
  - intros u1 u2 m1 m2. simpl. rewrite !get_set.
    destruct (decide (u1 = u)) as [->|H1], (decide (u2 = u)) as [->|H2];
      try done.
    + intros [= <-] H2' Heq. apply Hcomplete in H2'. congruence.
    + intros H1' [= <-] Heq. apply Hcomplete in H1'. congruence.
    + apply Hshared.
  - intros c u'. simpl. rewrite get_set.
    destruct (decide (c = checksum m)) as [->|Hne].
    + intros [= <-]. exists m. by rewrite get_set_eq.
    + intros Hcu. destruct (Hexact c u' Hcu) as (m' & Hm' & Hcm').
      exists m'. split; [|done]. rewrite get_set_ne; [done|]. congruence.
  - intros u' m'. simpl. rewrite !get_set.
    destruct (decide (u' = u)) as [->|Hne].
    + intros [= <-]. by rewrite decide_True.
    + intros Hm'. apply Hcomplete in Hm' as Hidx.
      rewrite decide_False; [done|]. congruence.
Qed.

(** Dropping a record together with its checksum keeps the invariant. *)
Lemma drop_keeps_invariant (self : scraper) (u : url) (m : meta) :
  store_ok self →
  Dict.get u (metadata self) = Some m →
  store_ok {| metadata := Dict.del u (metadata self);
              checksums := if Dict.mem (checksum m) (checksums self)
                           then Dict.del (checksum m) (checksums self)
                           else checksums self |}.
Proof.
  intros (Hshared & Hexact & Hcomplete) Hu.
  assert ((if Dict.mem (checksum m) (checksums self)
           then Dict.del (checksum m) (checksums self) else checksums self)
          = Dict.del (checksum m) (checksums self)) as ->.
  { destruct (Dict.mem _ _) eqn:Hmem; [done|].
    apply mem_false in Hmem. by rewrite del_absent. }
  repeat split.
  - intros u1 u2 m1 m2. simpl. rewrite !get_del.
    repeat case_decide; try done. apply Hshared.
  - intros c u'. simpl. rewrite !get_del. case_decide as Hc; [done|].
    intros Hcu. destruct (Hexact c u' Hcu) as (m' & Hm' & Hcm').
    exists m'. split; [|done]. rewrite decide_False; [done|].
    intros ->. congruence.
  - intros u' m'. simpl. rewrite !get_del. case_decide as Hne; [done|].
    intros Hm'. rewrite decide_False; [by apply Hcomplete|].
    intros Heq. apply Hne. by eapply Hshared.
Qed.

Section more_checker_facts.
Variable E : env.

(** The turn of a record whose file is missing keeps the invariant. *)
Lemma missing_turn_keeps_invariant (d : list (path * string))
    (st : scraper * issues) (u : url) (m : meta) :
  store_ok st.1 →
  Dict.get u (metadata st.1) = Some m →
  current_checksum E d (filename m) = None →
  store_ok (checked E d st (u, m)).1.
Proof.
  intros Hok Hu Hcur. unfold checked. simpl. rewrite Hcur. simpl.
  by apply drop_keeps_invariant.
Qed.

(** A download that is recorded keeps the invariant. *)
Lemma recorded_download_keeps_invariant
    (self self' : scraper) (u : url) (dest_path : path) (w w' : world) :
  store_ok self →
  _download_file E self u dest_path w = (Returned (true, self'), w') →
  store_ok self'.
Proof.
  intros Hok. unfold _download_file. unfold bind at 1, attempt_io.
  destruct (fetch_to_temp E u w) as [[tmp|e] w1]; [|done].
  unfold try_catch.
  match goal with |- context [bind ?m ?k w1] =>
    destruct (bind m k w1) as [[r|e] wb] eqn:Hbody end.
  - intros [= -> <-].
    apply bind_returned in Hbody as (dup & w1a & Hdup & Hbody).
    unfold _is_duplicate in Hdup.
    destruct (Dict.mem u (metadata self)) eqn:Hu.
    { injection Hdup as <- <-.
      apply bind_returned in Hbody as (? & ? & _ & Hbody). done. }
    apply bind_returned in Hdup as (c0 & w1b & Hc0 & Hdup).
    unfold _calculate_checksum in Hc0.
    apply bind_returned in Hc0 as (bytes & w1c & Hread & Hc0).
    injection Hc0 as <- <-.
    unfold read_text, bind, get_disk in Hread.
    destruct (Dict.get tmp (disk w1)) as [s|] eqn:Htmp; [|done].
    injection Hread as <- <-.
    destruct (Dict.mem (sha256_hexdigest E s) (checksums self)) eqn:Hc.
    { injection Hdup as <- <-.
      apply bind_returned in Hbody as (? & ? & _ & Hbody). done. }
    injection Hdup as <- <-.
    apply bind_returned in Hbody as ([] & w2 & Hrep & Hbody).
    apply bind_returned in Hbody as (c & w3 & Hcalc & Hbody).
    apply bind_returned in Hbody as (date & w4 & _ & Hbody).
    apply bind_returned in Hbody as (size & w5 & _ & Hbody).
    injection Hbody as <- _.
    destruct (replace_spec tmp dest_path w1) as (o & w2' & Hrep' & _ & _ & Hcase).
    rewrite Hrep in Hrep'. injection Hrep' as <- <-. rewrite Htmp in Hcase.
    destruct (no_fault_next w1); [|by destruct Hcase as ([? ?] & _)].
    destruct Hcase as (_ & Hdisk2 & _).
    unfold _calculate_checksum in Hcalc.
    apply bind_returned in Hcalc as (bytes & w2a & Hread & Hcalc).
    injection Hcalc as <- <-.
    unfold read_text, bind, get_disk in Hread.
    rewrite Hdisk2, get_set_eq in Hread. injection Hread as <- <-.
    apply (record_keeps_invariant self u
             {| filename := path_name dest_path; download_date := date;
                checksum := sha256_hexdigest E s; size_bytes := size |});
      [done | by apply mem_false | by apply mem_false].
  - intros Hhandler.
    apply bind_returned in Hhandler as (? & ? & _ & Hhandler).
    apply bind_returned in Hhandler as (? & ? & _ & Hhandler). done.
Qed.

(** The turn of a record whose file has another checksum than the recorded
    one keeps the former checksum in [self.checksums]; on a store that
    satisfies the invariant, it breaks the invariant. *)
Lemma mismatch_turn_keeps_old_key (d : list (path * string))
    (st : scraper * issues) (u : url) (m : meta) (c : string) :
  current_checksum E d (filename m) = Some c →
  c ≠ checksum m →
  Dict.get (checksum m) (checksums st.1) = Some u →
  Dict.get (checksum m) (checksums (checked E d st (u, m)).1) = Some u
  ∧ Dict.get c (checksums (checked E d st (u, m)).1) = Some u.
Proof.
  intros Hcur Hne Hold. unfold checked. simpl. rewrite Hcur.
  rewrite decide_False by done. simpl.
  by rewrite get_set_eq, get_set_ne.
Qed.

Lemma mismatch_turn_breaks_invariant (d : list (path * string))
    (st : scraper * issues) (u : url) (m : meta) (c : string) :
  store_ok st.1 →
  Dict.get u (metadata st.1) = Some m →
  current_checksum E d (filename m) = Some c →
  c ≠ checksum m →
  ¬ index_exact (checked E d st (u, m)).1.
Proof.
  intros (_ & _ & Hcomplete) Hu Hcur Hne Hexact.
  destruct (mismatch_turn_keeps_old_key d st u m c Hcur Hne (Hcomplete u m Hu))
    as [Hold _].
  destruct (Hexact _ _ Hold) as (m' & Hm' & Hc').
  unfold checked in Hm'. simpl in Hm'. rewrite Hcur in Hm'.
  rewrite decide_False in Hm' by done. simpl in Hm'.
  rewrite get_alter, decide_True, Hu in Hm' by done.
  injection Hm' as <-. simpl in Hc'. done.
Qed.

(** A turn of the loop leaves the entries of the other URLs alone and only
    appends to the report. *)
Lemma checked_other (d : list (path * string)) (st : scraper * issues)
    (um : url * meta) (u : url) :
  um.1 ≠ u →
  Dict.get u (metadata (checked E d st um).1) = Dict.get u (metadata st.1).
Proof.
  intros Hne. unfold checked.
  destruct (current_checksum E d (filename um.2)) as [c|]; simpl.
  - destruct (decide (c = checksum um.2)); [done|]. simpl.
    by rewrite get_alter_ne.
  - by rewrite get_del_ne.
Qed.

Lemma checked_keeps_mismatch (d : list (path * string)) (st : scraper * issues)
    (um : url * meta) (name : string) :
  name ∈ checksum_mismatches st.2 →
  name ∈ checksum_mismatches (checked E d st um).2.
Proof.
  intros Hin. unfold checked.
  destruct (current_checksum E d (filename um.2)) as [c|]; simpl; [|done].
  destruct (decide (c = checksum um.2)); [done|]. simpl.
  apply elem_of_app. by left.
Qed.

Lemma foldl_checked_others (d : list (path * string)) (items : list (url * meta))
    (st : scraper * issues) (u : url) (name : string) :
  u ∉ items.*1 →
  let st' := foldl (checked E d) st items in
  Dict.get u (metadata st'.1) = Dict.get u (metadata st.1)
  ∧ (name ∈ checksum_mismatches st.2 → name ∈ checksum_mismatches st'.2).
Proof.
  revert st. induction items as [|um items IH]; intros st Hu; simpl; [done|].
  apply not_elem_of_cons in Hu as [Hne Hu].
  destruct (IH (checked E d st um) Hu) as [Hget Hname]. split.
  - rewrite Hget. by apply checked_other.
  - intros Hin. by apply Hname, checked_keeps_mismatch.
Qed.

Lemma foldl_checked_mismatch (d : list (path * string)) (items : list (url * meta))
    (st : scraper * issues) (u : url) (m : meta) (c : string) :
  NoDup items.*1 → (u, m) ∈ items →
  Dict.get u (metadata st.1) = Some m →
  current_checksum E d (filename m) = Some c → c ≠ checksum m →
  let st' := foldl (checked E d) st items in
  Dict.get u (metadata st'.1) = Some (with_checksum c m)
  ∧ filename m ∈ checksum_mismatches st'.2.
Proof.
  revert st. induction items as [|um items IH];
    intros st Hnd Hin Hu Hcur Hne; simpl.
  - by apply elem_of_nil in Hin.
  - apply NoDup_cons in Hnd as [Hum Hnd].
    apply elem_of_cons in Hin as [<-|Hin].
    + destruct (foldl_checked_others d items (checked E d st (u, m)) u
                  (filename m) Hum) as [-> Hname].
      unfold checked in *. simpl in *. rewrite Hcur in *.
      rewrite decide_False in * by done. simpl in *. split.
      * by rewrite get_alter, decide_True, Hu.
      * apply Hname, elem_of_app. right. apply list_elem_of_here.
    + apply IH; try done. rewrite checked_other; [done|].
      intros Heq. apply Hum. rewrite Heq.
      apply list_elem_of_fmap. by exists (u, m).
Qed.

(** What the repair of a checksum mismatch does achieve, over the whole
    run: the record has the new checksum and its file name is reported. *)
Lemma mismatch_repair_updates_record
    (self : scraper) (w : world) (u : url) (m : meta) (c : string) :
  Dict.wf (metadata self) →
  (u, m) ∈ metadata self →
  current_checksum E (disk w) (filename m) = Some c →
  c ≠ checksum m →
  ∃ found self' w',
    cleanup_inconsistencies E self w = (Returned (found, self'), w')
    ∧ Dict.get u (metadata self') = Some (with_checksum c m)
    ∧ filename m ∈ checksum_mismatches found.
Proof.
  intros Hwf Hin Hcur Hne. unfold cleanup_inconsistencies.
  unfold bind at 1. rewrite check_records_checked.
  set (st := foldl (checked E (disk w)) _ _).
  destruct (foldl_checked_mismatch (disk w) (metadata self)
              (self, {| missing_files := []; checksum_mismatches := [];
                        orphaned_files := [] |}) u m c)
    as (Hmeta & Hname); try done.
  { by apply elem_of_get. }
  fold st in Hmeta, Hname.
  assert (∃ w', (match missing_files st.2, checksum_mismatches st.2 with
                 | [], [] => ret ()
                 | _, _ => _save_metadata E st.1 ;;; _save_checksums E st.1
                 end) w = (Returned (), w')) as [w' Hsave].
  { destruct (missing_files st.2), (checksum_mismatches st.2);
      try (by eexists);
      destruct (persist_returns E st.1 w) as (w' & Hrun); by exists w'. }
  io_unfold. simpl. rewrite Hsave.
  eexists _, _, _. split; [done|]. by split.
Qed.

End more_checker_facts.

(** * Concrete runs *)

(** C1, where the code departs from it.  On [twin_site], starting from an
    empty download directory, both files are downloaded (the second replaces
    the first on the disk, as they share their name) and the store satisfies
    the invariant; then the repair of the checksum mismatch of the first
    record, in [cleanup_inconsistencies], gives the two records the same
    checksum and leaves the former checksum of the first record in
    [self.checksums]. *)
Theorem mismatch_repair_breaks_store_invariant :
  ((self <~ new_scraper twin_site ;; scrape_all twin_site self)
     (Lab.world_of [] [])).1
  = Returned ([("h1b", 2); ("h2a", 0); ("h2b", 0)], twins_downloaded)
  ∧ store_ok twins_downloaded
  ∧ (first_cycle twin_site (Lab.world_of [] [])).1
    = Returned ({| missing_files := [];
                   checksum_mismatches := ["h1b_2024.csv"];
                   orphaned_files := [] |}, twins_repaired)
  ∧ ¬ no_shared_checksum twins_repaired
  ∧ ¬ index_exact twins_repaired.
Proof.
  split; [vm_compute; reflexivity|]. split; [|split; [vm_compute; reflexivity|]].
  - repeat split.
    + intros u1 u2 m1 m2. simpl. unfold url_a, url_b.
      repeat case_decide; intros; simplify_eq; done.
    + intros c u. simpl. unfold url_a, url_b.
      repeat case_decide; intros; simplify_eq; eexists; split;
        simpl; repeat case_decide; done.
    + intros u m. simpl. unfold url_a, url_b.
      repeat case_decide; intros; simplify_eq; simpl;
        repeat case_decide; done.
  - split.
    + intros Hinv.
      by specialize (Hinv url_a url_b _ _ eq_refl eq_refl eq_refl).
    + intros Hinv.
      destruct (Hinv "sha256:employer,2024" url_a eq_refl) as (m & Hm & Hc).
      by injection Hm as <-.
Qed.

(** C5, where the code departs from it: the repair of a checksum mismatch
    sets the checksum of the record and maps the new checksum to the URL of
    the record, and reports the file name, but the former checksum stays a
    key of [self.checksums], still mapped to that URL. *)
Theorem mismatch_repair_keeps_old_checksum :
  ∃ found self' w,
    cleanup_inconsistencies empty_site stale_store modified_disk
    = (Returned (found, self'), w)
    ∧ checksum_mismatches found = ["h2a_2023.csv"]
    ∧ checksum <$> Dict.get url_c (metadata self') = Some "sha256:new"
    ∧ Dict.get "sha256:new" (checksums self') = Some url_c
    ∧ Dict.get "sha256:old" (checksums self') = Some url_c.
Proof. eexists _, _, _. split; [vm_compute; reflexivity|]. done. Qed.

(** *** Loading (C3) *)

(** C3, counterexample: the state files exist and cannot be parsed, and
    loading returns an empty store instead of failing. *)
Lemma corrupt_state_loads_as_empty_store :
  Dict.mem metadata_file (disk corrupt_world) = true
  ∧ json_load_metadata empty_site "{ broken" = None
  ∧ _load_metadata empty_site corrupt_world = (Returned [], corrupt_world)
  ∧ Dict.mem checksums_file (disk corrupt_world) = true
  ∧ json_load_checksums empty_site "{ broken" = None
  ∧ _load_checksums empty_site corrupt_world = (Returned [], corrupt_world)
  ∧ new_scraper empty_site corrupt_world
    = (Returned {| metadata := []; checksums := [] |}, corrupt_world).
Proof. repeat split. Qed.

(** An instance: an empty download directory, and [corrupt_world]. *)
Lemma load_absent_or_unparsable_is_empty_witness :
  _load_metadata empty_site (Lab.world_of [] []) = (Returned [], Lab.world_of [] [])
  ∧ _load_metadata empty_site corrupt_world = (Returned [], corrupt_world)
  ∧ _load_checksums empty_site (Lab.world_of [] []) = (Returned [], Lab.world_of [] [])
  ∧ _load_checksums empty_site corrupt_world = (Returned [], corrupt_world).
Proof.
  pose proof (load_absent_or_unparsable_is_empty empty_site (Lab.world_of [] []))
    as (Hm & _ & Hc & _).
  pose proof (load_absent_or_unparsable_is_empty empty_site corrupt_world)
    as (_ & Hm' & _ & Hc').
  split; [apply Hm; reflexivity|].
  split; [apply (Hm' "{ broken"); reflexivity|].
  split; [apply Hc; reflexivity|].
  apply (Hc' "{ broken"); reflexivity.
Defined.

(** *** Saving (C6, C7) *)

(** C6, counterexample: the write of the save fails, and the save returns
    normally; a whole job whose save of the metadata fails succeeds at its
    first attempt, without a retry, and [metadata.json] was not written. *)
Lemma failed_save_is_not_surfaced :
  save_breaks write_fails_world = true
  ∧ (_save_metadata empty_site stale_store write_fails_world).1 = Returned ()
  ∧ (_save_checksums empty_site stale_store write_fails_world).1 = Returned ()
  ∧ (λ e, (attempt (final e), success (final e), slept (final e),
           Dict.get metadata_file (disk (outside (final e)))))
      <$> scheduled_job_with_retry empty_site (Lab.world_of [] [FailAtOpen])
    = Some (1, true, [], None).
Proof. repeat split. Qed.

(** An instance: the write of the temporary file cannot start. *)
Lemma failed_save_keeps_file_and_returns_witness :
  save_breaks write_fails_world = true
  ∧ (∃ w', _save_metadata empty_site stale_store write_fails_world
           = (Returned (), w')
           ∧ Dict.get metadata_file (disk w') = Some "{}")
  ∧ (∃ w', _save_checksums empty_site stale_store write_fails_world
           = (Returned (), w')
           ∧ Dict.get checksums_file (disk w') = Some "{}").
Proof.
  split; [reflexivity|].
  destruct (failed_save_keeps_file_and_returns empty_site stale_store
              write_fails_world eq_refl)
    as [(w1 & Hrun1 & Hfile1 & _) (w2 & Hrun2 & Hfile2 & _)].
  split; [exists w1 | exists w2]; split; assumption.
Defined.

(** C7, counterexample: while the two saves run without any fault, the disk
    goes through a state with the new [metadata.json] and the former
    [checksums.json]; and when the second save fails, that mixture is what
    the disk holds at the end. *)
Lemma persist_passes_through_mixed_state :
  json_dump_metadata empty_site (metadata stale_store) ≠ "{}"
  ∧ json_dump_checksums empty_site (checksums stale_store) ≠ "{}"
  ∧ existsb (λ d, bool_decide
                    (Dict.get metadata_file d
                     = Some (json_dump_metadata empty_site (metadata stale_store))
                     ∧ Dict.get checksums_file d = Some "{}"))
      (trail (persist empty_site stale_store (saved_empty_world [])).2) = true
  ∧ disk (persist empty_site stale_store
            (saved_empty_world [NoFault; NoFault; FailAtOpen])).2
    = [(metadata_file, json_dump_metadata empty_site (metadata stale_store));
       (checksums_file, "{}")].
Proof. repeat split; try done; vm_compute; reflexivity. Qed.

(** An instance: the store of one record is saved over an empty one. *)
Lemma persist_is_atomic_per_file_witness :
  ∃ w' steps,
    persist empty_site stale_store (saved_empty_world []) = (Returned (), w')
    ∧ trail w' = steps ++ []
    ∧ Forall (each_file_old_or_new empty_site stale_store
                [(metadata_file, "{}"); (checksums_file, "{}")]) (disk w' :: steps).
Proof.
  exact (persist_is_atomic_per_file empty_site stale_store (saved_empty_world [])).
Defined.

(** *** Downloads (C8, C9) *)

(** An instance: the URL is already a key of [self.metadata]. *)
Lemma duplicate_download_changes_nothing_witness :
  ∃ w', _download_file twin_site known_store url_a
          (InVisa "h1b" "h1b_2024.csv") known_disk
        = (Returned (false, known_store), w')
        ∧ disk w' = disk known_disk
        ∧ Dict.mem (fresh_temp (disk known_disk)) (disk w') = false.
Proof.
  apply (duplicate_download_changes_nothing twin_site known_store url_a
           (InVisa "h1b" "h1b_2024.csv") "employer,2024" known_disk);
    reflexivity.
Defined.

(** An instance: the site does not serve the URL. *)
Lemma failed_transfer_leaves_temp_file_witness :
  http_get empty_site url_a = None
  ∧ ∃ w', _download_file empty_site known_store url_a
            (InVisa "h1b" "h1b_2024.csv") known_disk
          = (Returned (false, known_store), w')
          ∧ Dict.mem (fresh_temp (disk known_disk)) (disk known_disk) = false
          ∧ Dict.mem (fresh_temp (disk known_disk)) (disk w') = true.
Proof.
  split; [reflexivity|].
  apply (failed_transfer_leaves_temp_file empty_site known_store url_a
           (InVisa "h1b" "h1b_2024.csv") known_disk).
  left. reflexivity.
Defined.

(** *** The consistency checker (C4) *)

(** An instance: the only tracked file is not on the disk. *)
Lemma missing_file_record_is_removed_witness :
  ∃ found self' w',
    cleanup_inconsistencies empty_site known_store (Lab.world_of [] [])
    = (Returned (found, self'), w')
    ∧ Dict.get url_a (metadata self') = None
    ∧ Dict.get "sha256:employer,2024" (checksums self') ≠ Some url_a
    ∧ "h1b_2024.csv" ∈ missing_files found.
Proof.
  destruct (missing_file_record_is_removed empty_site known_store
              (Lab.world_of [] []) url_a
              {| filename := "h1b_2024.csv";
                 download_date := "2025-12-01T02:00:00";
                 checksum := "sha256:employer,2024";
                 size_bytes := 13 |})
    as (found & self' & w' & Hrun & Hu & Hc & _ & Hname).
  - apply NoDup_singleton.
  - apply list_elem_of_here.
  - reflexivity.
  - exists found, self', w'. repeat split; assumption.
Defined.

(** *** The retry scheduler (C2, C10) *)





(** * Part IV: further properties *)

(** ** Faults *)

Lemma no_fault_within_next (n : nat) (w : world) :
  no_fault_within (S n) w → no_fault_next w = true.
Proof.
  unfold no_fault_within, no_fault_next.
  destruct (faults w) as [|f fs]; [done|]. simpl.
  intros [-> _]%Forall_cons_1. done.
Qed.

Lemma no_fault_within_tail (n : nat) (w w' : world) :
  faults w' = tail (faults w) → no_fault_within (S n) w → no_fault_within n w'.
Proof.
  unfold no_fault_within. intros ->.
  destruct (faults w) as [|f fs]; simpl.
  - by destruct n.
  - by intros [_ ?]%Forall_cons_1.
Qed.

Lemma no_fault_within_2 (w : world) :
  no_fault_within 2 w ↔ save_breaks w = false.
Proof.
  unfold no_fault_within, save_breaks.
  destruct (faults w) as [|f [|f' fs]]; simpl.
  - split; [done | intros _; constructor].
  - destruct f; split; try done.
    + intros _. by repeat constructor.
    + by intros [? _]%Forall_cons_1.
    + by intros [? _]%Forall_cons_1.
  - destruct f, f'; split; try done;
      try (by intros [? [? _]%Forall_cons_1]%Forall_cons_1).
    intros _. by repeat constructor.
Qed.

Lemma tail_drop {A} (k : nat) (l : list A) : tail (drop k l) = drop (S k) l.
Proof.
  revert l. induction k as [|k IH]; intros [|x l]; simpl; done.
Qed.

Lemma no_fault_within_two_steps (w w1 : world) :
  no_fault_next w = true → faults w1 = tail (faults w) →
  no_fault_next w1 = true → no_fault_within 2 w.
Proof.
  unfold no_fault_next, no_fault_within. intros H1 -> H2.
  destruct (faults w) as [|[| |?] [|[| |?] fs]]; simpl in *; try done;
    by repeat constructor.
Qed.

Lemma fresh_temp_outside (d : list (path * string)) (p : path) :
  in_download_dir p → p ≠ fresh_temp d.
Proof. intros Hp ->. by unfold in_download_dir, fresh_temp in Hp. Qed.

Section download_facts.
Variable E : env.

(** ** The whole of [_download_file] *)

(** The transfer into the temporary file, with the states it goes through. *)
Lemma fetch_to_temp_spec (u : url) (w : world) :
  ∃ o w1 steps s,
    fetch_to_temp E u w = (o, w1)
    ∧ clock w1 = clock w
    ∧ (∃ k, faults w1 = drop k (faults w))
    ∧ trail w1 = steps ++ trail w
    ∧ Forall (λ d, ∃ s', d = Dict.set (fresh_temp (disk w)) s' (disk w)) steps
    ∧ disk w1 = Dict.set (fresh_temp (disk w)) s (disk w)
    ∧ ((o = Returned (fresh_temp (disk w)) ∧ http_get E u = Some s
        ∧ no_fault_next w = true ∧ faults w1 = tail (faults w))
       ∨ ((∃ e, o = Raised e) ∧ transfer_breaks E u w)).
Proof.
  unfold fetch_to_temp, named_temporary_file, transfer_breaks, no_fault_next.
  set (tmp := fresh_temp (disk w)).
  destruct (http_get E u) as [body|] eqn:Hget.
  - io_unfold. simpl.
    destruct (faults w) as [|[| |k] fs] eqn:Hfs.
    + edestruct grow_spec
        as (w1 & steps & Hrun & Hdisk & Hfaults & Hclock & Htrail & Hsteps).
      rewrite Hrun. eexists _, _, (steps ++ [_]), body. split; [done|].
      simpl in *. rewrite Hclock, Hfaults, Htrail, Hdisk, set_set, substring_full.
      split; [done|]. split; [by exists 0|]. split; [by rewrite <- (assoc_L (++))|].
      split; [|split; [done | by left]].
      apply Forall_app_2; [|apply Forall_singleton; by eexists].
      eapply Forall_impl; [exact Hsteps|]. intros d [s' ->].
      exists s'. apply set_set.
    + edestruct grow_spec
        as (w1 & steps & Hrun & Hdisk & Hfaults & Hclock & Htrail & Hsteps).
      rewrite Hrun. eexists _, _, (steps ++ [_]), body. split; [done|].
      simpl in *. rewrite Hclock, Hfaults, Htrail, Hdisk, set_set, substring_full.
      split; [done|]. split; [by exists 1|]. split; [by rewrite <- (assoc_L (++))|].
      split; [|split; [done | by left]].
      apply Forall_app_2; [|apply Forall_singleton; by eexists].
      eapply Forall_impl; [exact Hsteps|]. intros d [s' ->].
      exists s'. apply set_set.
    + eexists _, _, [_], "". split; [done|]. simpl.
      split; [done|]. split; [by exists 1|]. split; [done|].
      split; [apply Forall_singleton; by eexists|]. split; [done|].
      right. split; [by eexists|]. right. by exists body.
    + edestruct grow_spec
        as (w1 & steps & Hrun & Hdisk & Hfaults & Hclock & Htrail & Hsteps).
      rewrite Hrun. eexists _, _, (steps ++ [_]), _. split; [done|].
      simpl in *. rewrite Hclock, Hfaults, Htrail, Hdisk, set_set.
      split; [done|]. split; [by exists 1|]. split; [by rewrite <- (assoc_L (++))|].
      split; [|split; [done|]].
      * apply Forall_app_2; [|apply Forall_singleton; by eexists].
        eapply Forall_impl; [exact Hsteps|]. intros d [s' ->].
        exists s'. apply set_set.
      * right. split; [by eexists|]. right. by exists body.
  - io_unfold. simpl. eexists _, _, [_], "". split; [done|]. simpl.
    split; [done|]. split; [by exists 0|]. split; [done|].
    split; [apply Forall_singleton; by eexists|]. split; [done|].
    right. split; [by eexists | by left].
Qed.

(** Everything [_download_file] can do. *)
Lemma _download_file_spec (self : scraper) (u : url) (dest_path : path)
    (w : world) :
  ∃ b self' w' steps,
    _download_file E self u dest_path w = (Returned (b, self'), w')
    ∧ clock w' = clock w
    ∧ (∃ k, faults w' = drop k (faults w))
    ∧ trail w' = steps ++ trail w
    ∧ Forall (download_state E u dest_path (disk w)) (disk w' :: steps)
    ∧ ((b = false ∧ self' = self
        ∧ ¬ recordable E self u w
        ∧ (disk w' = disk w
           ∨ (transfer_breaks E u w
              ∧ ∃ s, disk w' = Dict.set (fresh_temp (disk w)) s (disk w))))
       ∨ (b = true
          ∧ ∃ body,
              http_get E u = Some body
              ∧ no_fault_within 2 w
              ∧ Dict.get u (metadata self) = None
              ∧ Dict.get (sha256_hexdigest E body) (checksums self) = None
              ∧ self' = recorded E self u dest_path (clock w) body
              ∧ disk w' = Dict.set dest_path body (disk w))).
Proof.
  destruct (fetch_to_temp_spec u w)
    as (o & w1 & steps1 & s & Hfetch & Hclock1 & [k1 Hfaults1] & Htrail1
        & Hsteps1 & Hdisk1 & Hcase).
  pose proof (fresh_temp_absent (disk w)) as Hfresh.
  set (tmp := fresh_temp (disk w)) in *.
  assert (Forall (download_state E u dest_path (disk w)) steps1) as Hst1.
  { eapply Forall_impl; [exact Hsteps1|]. intros d [s' ->].
    right; left. by exists s'. }
  assert (download_state E u dest_path (disk w) (disk w)) as Hst0 by by left.
  unfold _download_file. unfold bind at 1, attempt_io. rewrite Hfetch.
  destruct Hcase as [(-> & Hget & Hok1 & Htail1) | ([e ->] & Hbreak)].
  2: { exists false, self, w1, steps1. unfold ret. split; [done|].
       split; [done|]. split; [by exists k1|]. split; [done|]. split.
       - apply Forall_cons_2; [|done]. rewrite Hdisk1. right; left. by exists s.
       - left. split; [done|]. split; [done|]. split.
         + intros (body & Hget & Hok & _).
           apply no_fault_within_next in Hok.
           destruct Hbreak as [Hnone|(body' & _ & Hfault)]; congruence.
         + right. split; [done|]. by exists s. }
  unfold try_catch.
  destruct (Dict.mem u (metadata self)
            || Dict.mem (sha256_hexdigest E s) (checksums self)) eqn:Hdup.
  - (* a duplicate: the temporary file is unlinked *)
    assert (_is_duplicate E self u tmp w1 = (Returned true, w1)) as Hisdup.
    { unfold _is_duplicate. destruct (Dict.mem u (metadata self)); [done|].
      simpl in Hdup. unfold _calculate_checksum. io_unfold.
      rewrite Hdisk1, get_set_eq. by rewrite Hdup. }
    unfold bind at 1. rewrite Hisdup. io_unfold.
    rewrite Hdisk1, get_set_eq. simpl. rewrite del_set_fresh by done.
    eexists false, self, _, (disk w :: steps1). split; [done|]. simpl.
    rewrite Hclock1, Htrail1. split; [done|]. split; [by exists k1|].
    split; [done|]. split; [by repeat apply Forall_cons_2|].
    left. split; [done|]. split; [done|]. split; [|by left].
    intros (body & Hget' & _ & Hu & Hc).
    assert (body = s) as -> by congruence.
    apply mem_false in Hu, Hc. by rewrite Hu, Hc in Hdup.
  - apply orb_false_elim in Hdup as [Hu Hc].
    assert (_is_duplicate E self u tmp w1 = (Returned false, w1)) as Hnodup.
    { unfold _is_duplicate. rewrite Hu. unfold _calculate_checksum. io_unfold.
      rewrite Hdisk1, get_set_eq. by rewrite Hc. }
    unfold bind at 1. rewrite Hnodup.
    destruct (replace_spec tmp dest_path w1)
      as (o2 & w2 & Hrep & Hfaults2 & Hclock2 & Hcase2).
    rewrite Hdisk1, get_set_eq in Hcase2.
    unfold bind at 1. rewrite Hrep.
    assert (∃ k, faults w2 = drop k (faults w)) as Hdrop2.
    { exists (S k1). by rewrite Hfaults2, Hfaults1, tail_drop. }
    destruct (no_fault_next w1) eqn:Hok2.
    + (* the rename succeeds: the download is recorded *)
      destruct Hcase2 as (-> & Hdisk2 & Htrail2).
      rewrite del_set_fresh in Hdisk2 by done.
      unfold _calculate_checksum, stat_size. io_unfold.
      rewrite Hdisk2, get_set_eq. simpl. rewrite Hdisk2, get_set_eq. simpl.
      eexists true, _, w2, (disk w2 :: steps1). split; [done|].
      rewrite Hclock2, Htrail2, Htrail1. split; [done|]. split; [done|].
      split; [done|].
      assert (download_state E u dest_path (disk w) (disk w2)) as Hst2.
      { rewrite Hdisk2. right; right. by exists s. }
      split; [by repeat apply Forall_cons_2|].
      right. split; [done|]. exists s. split; [done|].
      split; [by eapply no_fault_within_two_steps|].
      split; [by apply mem_false|]. split; [by apply mem_false|].
      split; [|done]. unfold recorded. by rewrite Hclock1.
    + (* the rename fails: the temporary file is unlinked *)
      destruct Hcase2 as ([e ->] & Hdisk2 & Htrail2).
      io_unfold. unfold Dict.mem. rewrite Hdisk2, get_set_eq. simpl.
      rewrite Hdisk2, get_set_eq. simpl.
      rewrite del_set_fresh by done.
      eexists false, self, _, (disk w :: steps1). split; [done|]. simpl.
      rewrite Hclock2, Htrail2, Htrail1. split; [done|]. split; [done|].
      split; [done|]. split; [by repeat apply Forall_cons_2|].
      left. split; [done|]. split; [done|]. split; [|by left].
      intros (body & _ & Hok & _).
      apply (no_fault_within_tail 1 w w1 Htail1), no_fault_within_next in Hok.
      congruence.
Qed.

(** X1: a download is recorded when the site serves the file, neither the
    transfer nor the rename meets a fault, and neither the URL nor the
    checksum of the body is known: [_download_file] returns [True], the body
    is at the destination, the URL maps to a record with the name of the
    destination, the checksum and the size of the body, and the checksum maps
    to the URL. *)
Theorem new_download_is_recorded (self : scraper) (u : url) (dest_path : path)
    (body : string) (w : world) :
  http_get E u = Some body →
  no_fault_within 2 w →
  Dict.get u (metadata self) = None →
  Dict.get (sha256_hexdigest E body) (checksums self) = None →
  ∃ w', _download_file E self u dest_path w
        = (Returned (true, recorded E self u dest_path (clock w) body), w')
        ∧ disk w' = Dict.set dest_path body (disk w).
Proof.
  intros Hget Hok Hu Hc.
  destruct (_download_file_spec self u dest_path w)
    as (b & self' & w' & steps & Hrun & _ & _ & _ & _ & Hcase).
  destruct Hcase as [(_ & _ & Hnot & _)|(-> & body' & Hget' & _ & _ & _ & -> & Hdisk)].
  - destruct Hnot. by exists body.
  - assert (body' = body) as -> by congruence. by exists w'.
Qed.

(** X2: [_download_file] never raises, and it returns [True] exactly when
    the download can be recorded.  When it returns [False], the store and
    every file of the download directory are as before (only a temporary
    file may be left behind); when it returns [True], the store is the former
    one with the new record, the destination holds the body, and no other
    file has changed. *)
Theorem download_outcome (self : scraper) (u : url) (dest_path : path)
    (w : world) :
  ∃ b self' w',
    _download_file E self u dest_path w = (Returned (b, self'), w')
    ∧ (b = true ↔ recordable E self u w)
    ∧ (b = false →
       self' = self
       ∧ ∀ p, in_download_dir p → Dict.get p (disk w') = Dict.get p (disk w))
    ∧ (b = true →
       ∃ body, http_get E u = Some body
               ∧ self' = recorded E self u dest_path (clock w) body
               ∧ Dict.get dest_path (disk w') = Some body
               ∧ ∀ p, p ≠ dest_path → Dict.get p (disk w') = Dict.get p (disk w)).
Proof.
  destruct (_download_file_spec self u dest_path w)
    as (b & self' & w' & steps & Hrun & _ & _ & _ & _ & Hcase).
  exists b, self', w'. split; [done|].
  destruct Hcase as [(-> & -> & Hnot & Hdisk)
                    |(-> & body & Hget & Hok & Hu & Hc & -> & Hdisk)].
  - split; [by split|]. split; [|done]. intros _. split; [done|].
    intros p Hp. destruct Hdisk as [->|(_ & s & ->)]; [done|].
    rewrite get_set_ne; [done | by apply fresh_temp_outside].
  - split; [split; [intros _; by exists body | done]|]. split; [done|].
    intros _. exists body. rewrite Hdisk. split; [done|]. split; [done|].
    split; [apply get_set_eq|]. intros p Hp. by rewrite get_set_ne.
Qed.

(** X3: the destination of a download is written in one step.  In every
    state the disk goes through while [_download_file] runs, an interrupted
    run included, the destination has its former content or the whole body
    the site serves, and the other files of the download directory are
    untouched. *)
Theorem download_is_atomic_on_destination (self : scraper) (u : url)
    (dest_path : path) (w : world) :
  in_download_dir dest_path →
  ∃ b self' w' steps,
    _download_file E self u dest_path w = (Returned (b, self'), w')
    ∧ trail w' = steps ++ trail w
    ∧ Forall (λ d,
        (Dict.get dest_path d = Dict.get dest_path (disk w)
         ∨ ∃ body, http_get E u = Some body ∧ Dict.get dest_path d = Some body)
        ∧ ∀ p, p ≠ dest_path → in_download_dir p →
               Dict.get p d = Dict.get p (disk w))
        (disk w' :: steps).
Proof.
  intros Hdest.
  destruct (_download_file_spec self u dest_path w)
    as (b & self' & w' & steps & Hrun & _ & _ & Htrail & Hstates & _).
  exists b, self', w', steps. split; [done|]. split; [done|].
  eapply Forall_impl; [exact Hstates|].
  intros d [->|[[s ->]|(body & Hget & ->)]].
  - split; [by left | done].
  - split.
    + left. rewrite get_set_ne; [done | by apply fresh_temp_outside].
    + intros p _ Hp. rewrite get_set_ne; [done | by apply fresh_temp_outside].
  - split.
    + right. exists body. split; [done | apply get_set_eq].
    + intros p Hp _. by rewrite get_set_ne.
Qed.

End download_facts.

(** ** Batches of downloads *)

Lemma length_set_fresh {K V : Type} `{EqDecision K} (k : K) (v : V)
    (d : list (K * V)) :
  Dict.get k d = None → length (Dict.set k v d) = S (length d).
Proof.
  induction d as [|[k0 v0] d IH]; simpl; [done|].
  destruct (decide (k = k0)); [done|]. intros Hk. simpl. by rewrite IH.
Qed.

Lemma store_extends_refl (self : scraper) : store_extends self self.
Proof. by split. Qed.

Lemma store_extends_trans (s1 s2 s3 : scraper) :
  store_extends s1 s2 → store_extends s2 s3 → store_extends s1 s3.
Proof. intros [Hm Hc] [Hm' Hc']. split; eauto. Qed.

Section batch_facts.
Variable E : env.

Lemma recorded_extends (self : scraper) (u : url) (dest_path : path)
    (date body : string) :
  Dict.get u (metadata self) = None →
  Dict.get (sha256_hexdigest E body) (checksums self) = None →
  store_extends self (recorded E self u dest_path date body).
Proof.
  intros Hu Hc. split; simpl.
  - intros u' m Hm. rewrite get_set_ne; [done | congruence].
  - intros c u' Hcu. rewrite get_set_ne; [done | congruence].
Qed.

Lemma covered_mono (self self' : scraper) (u : url) :
  store_extends self self' → covered E self u → covered E self' u.
Proof.
  intros [Hm Hc] [[m Hu]|[Hnone|(body & Hget & [u' Hb])]].
  - left. exists m. by apply Hm.
  - by right; left.
  - right; right. exists body. split; [done|]. exists u'. by apply Hc.
Qed.

Lemma covered_not_recordable (self : scraper) (u : url) (w : world) :
  covered E self u → ¬ recordable E self u w.
Proof.
  intros Hcov (body & Hget & _ & Hu & Hc).
  destruct Hcov as [[m Hm]|[Hnone|(body' & Hget' & [u' Hb])]]; congruence.
Qed.

Lemma not_recordable_covered (self : scraper) (u : url) (w : world) :
  faults w = [] → ¬ recordable E self u w → covered E self u.
Proof.
  intros Hfaults Hnot. unfold covered.
  destruct (Dict.get u (metadata self)) as [m|] eqn:Hu; [left; by eexists|].
  destruct (http_get E u) as [body|] eqn:Hget; [|by right; left].
  destruct (Dict.get (sha256_hexdigest E body) (checksums self)) as [u'|] eqn:Hc.
  - right; right. exists body. split; [done|]. rewrite Hc. by eexists.
  - destruct Hnot. exists body. split; [done|]. split; [|done].
    unfold no_fault_within. rewrite Hfaults. constructor.
Qed.

(** The loop of [scrape_visa_type], link after link. *)
Lemma download_links_spec (visa_type : string) (file_links : list link)
    (n : nat) (self : scraper) (w : world) :
  ∃ n' self' w',
    download_links E visa_type file_links n self w = (Returned (n', self'), w')
    ∧ (∃ k, faults w' = drop k (faults w))
    ∧ store_extends self self'
    ∧ length (metadata self') + n = length (metadata self) + n'
    ∧ (store_ok self → store_ok self')
    ∧ (faults w = [] → Forall (λ l, covered E self' (link_url l)) file_links)
    ∧ (Forall (λ l, covered E self (link_url l)) file_links →
       n' = n ∧ self' = self).
Proof.
  revert n self w.
  induction file_links as [|l rest IH]; intros n self w; simpl.
  - exists n, self, w. split; [done|]. split; [by exists 0|].
    split; [apply store_extends_refl|]. split; [done|]. split; [done|].
    split; [intros _; constructor | done].
  - set (dest := InVisa visa_type _).
    destruct (_download_file_spec E self (link_url l) dest w)
      as (b & self1 & w1 & steps & Hrun & _ & [k1 Hfaults1] & _ & _ & Hcase).
    unfold bind. rewrite Hrun. simpl.
    destruct (IH (if b then S n else n) self1 w1)
      as (n' & self' & w' & Hloop & [k Hfaults] & Hext & Hlen & Hok & Hcov & Hnone).
    exists n', self', w'. split; [done|].
    split; [exists (k1 + k); by rewrite Hfaults, Hfaults1, drop_drop|].
    destruct Hcase as [(-> & -> & Hnot & _)
                      |(-> & body & Hget & Hfree & Hu & Hc & -> & _)].
    + split; [done|]. split; [done|]. split; [done|]. split.
      * intros Hfaults0. apply Forall_cons_2.
        -- eapply covered_mono; [exact Hext|].
           by eapply not_recordable_covered.
        -- apply Hcov. by rewrite Hfaults1, Hfaults0, drop_nil.
      * intros [_ Hrest]%Forall_cons_1. by apply Hnone.
    + pose proof (recorded_extends self (link_url l) dest (clock w) body Hu Hc)
        as Hext1.
      split; [by eapply store_extends_trans|]. split.
      { simpl in Hlen. rewrite length_set_fresh in Hlen by done. lia. }
      split.
      { intros Hself. apply Hok.
        by eapply recorded_download_keeps_invariant. }
      split.
      * intros Hfaults0. apply Forall_cons_2.
        -- eapply covered_mono; [exact Hext|]. left. simpl.
           rewrite get_set_eq. by eexists.
        -- apply Hcov. by rewrite Hfaults1, Hfaults0, drop_nil.
      * intros [Hl _]%Forall_cons_1.
        destruct (covered_not_recordable self (link_url l) w Hl).
        by exists body.
Qed.

Lemma scrape_visa_type_as_links (self : scraper) (visa_type : string)
    (w : world) :
  scrape_visa_type E self visa_type w
  = download_links E visa_type (links_of E visa_type) 0 self w.
Proof.
  unfold scrape_visa_type, links_of, _extract_file_links.
  destruct (Dict.get visa_type BASE_URLS) as [page|]; [|done].
  by destruct (page_links E page) as [[|l links]|].
Qed.

(** The loop of [scrape_all], visa type after visa type. *)
Lemma scrape_each_spec (visa_types : list string) (results : list (string * nat))
    (self : scraper) (w : world) :
  ∃ counts self' w',
    scrape_each E visa_types results self w
    = (Returned (foldl (λ res vc, Dict.set vc.1 vc.2 res) results
                   (zip visa_types counts), self'), w')
    ∧ length counts = length visa_types
    ∧ (∃ k, faults w' = drop k (faults w))
    ∧ store_extends self self'
    ∧ length (metadata self') = length (metadata self) + sum_list counts
    ∧ (store_ok self → store_ok self')
    ∧ (faults w = [] →
       Forall (λ l, covered E self' (link_url l)) (visa_types ≫= links_of E))
    ∧ (Forall (λ l, covered E self (link_url l)) (visa_types ≫= links_of E) →
       counts = replicate (length visa_types) 0 ∧ self' = self).
Proof.
  revert results self w.
  induction visa_types as [|v vs IH]; intros results self w; simpl.
  - exists [], self, w. split; [done|]. split; [done|]. split; [by exists 0|].
    split; [apply store_extends_refl|]. simpl. split; [lia|].
    split; [done|]. split; [intros _; constructor | done].
  - unfold bind. rewrite scrape_visa_type_as_links.
    destruct (download_links_spec v (links_of E v) 0 self w)
      as (c & self1 & w1 & Hrun & [k1 Hfaults1] & Hext1 & Hlen1 & Hok1
          & Hcov1 & Hnone1).
    rewrite Hrun. simpl.
    destruct (IH (Dict.set v c results) self1 w1)
      as (counts & self' & w' & Hloop & Hcounts & [k Hfaults] & Hext & Hlen
          & Hok & Hcov & Hnone).
    exists (c :: counts), self', w'. split; [done|]. simpl.
    split; [by rewrite Hcounts|].
    split; [exists (k1 + k); by rewrite Hfaults, Hfaults1, drop_drop|].
    split; [by eapply store_extends_trans|]. split; [lia|].
    split; [by intros ?; apply Hok, Hok1|]. split.
    + intros Hfaults0. apply Forall_app_2.
      * eapply Forall_impl; [by apply Hcov1|].
        intros l Hl. by eapply covered_mono.
      * apply Hcov. by rewrite Hfaults1, Hfaults0, drop_nil.
    + intros [Hv Hvs]%Forall_app.
      destruct (Hnone1 Hv) as [-> ->].
      destruct (Hnone Hvs) as [-> ->]. done.
Qed.

Lemma scrape_all_spec (self : scraper) (w : world) :
  ∃ c1 c2 c3 self' w',
    scrape_all E self w
    = (Returned ([("h1b", c1); ("h2a", c2); ("h2b", c3)], self'), w')
    ∧ store_extends self self'
    ∧ length (metadata self') = length (metadata self) + (c1 + c2 + c3)
    ∧ (store_ok self → store_ok self')
    ∧ (faults w = [] →
       Forall (λ l, covered E self' (link_url l))
         (Dict.keys BASE_URLS ≫= links_of E))
    ∧ (Forall (λ l, covered E self (link_url l))
         (Dict.keys BASE_URLS ≫= links_of E) →
       c1 = 0 ∧ c2 = 0 ∧ c3 = 0 ∧ self' = self).
Proof.
  destruct (scrape_each_spec (Dict.keys BASE_URLS) [] self w)
    as (counts & self' & w1 & Hrun & Hcounts & _ & Hext & Hlen & Hok & Hcov
        & Hnone).
  destruct counts as [|c1 [|c2 [|c3 [|]]]]; try done.
  destruct (_save_metadata_spec E self' w1) as (w2 & ? & Hsave1 & _).
  destruct (_save_checksums_spec E self' w2) as (w3 & ? & Hsave2 & _).
  exists c1, c2, c3, self', w3.
  unfold scrape_all, bind. rewrite Hrun. simpl. rewrite Hsave1, Hsave2.
  split; [done|]. split; [done|]. split; [simpl in Hlen; lia|].
  split; [done|]. split; [done|].
  intros Hall. destruct (Hnone Hall) as [[= -> -> ->] ->]. done.
Qed.

(** X4: content is recorded once.  After a download is recorded, the
    download of any URL whose body has the same checksum returns [False] and
    leaves the store as it is, whatever the destination and the faults. *)
Theorem same_content_is_recorded_once (self self1 : scraper) (u1 u2 : url)
    (dest1 dest2 : path) (body1 body2 : string) (w w1 w2 : world) :
  _download_file E self u1 dest1 w = (Returned (true, self1), w1) →
  http_get E u1 = Some body1 →
  http_get E u2 = Some body2 →
  sha256_hexdigest E body2 = sha256_hexdigest E body1 →
  ∃ w3, _download_file E self1 u2 dest2 w2 = (Returned (false, self1), w3).
Proof.
  intros Hrun1 Hget1 Hget2 Hsame.
  destruct (_download_file_spec E self u1 dest1 w)
    as (b & self' & w' & steps & Hrun & _ & _ & _ & _ & Hcase).
  rewrite Hrun1 in Hrun. injection Hrun as <- <- <-.
  destruct Hcase as [(? & _)|(_ & body & Hget & _ & _ & _ & -> & _)]; [done|].
  assert (body = body1) as -> by congruence.
  assert (covered E (recorded E self u1 dest1 (clock w) body1) u2) as Hcov.
  { right; right. exists body2. split; [done|]. simpl.
    rewrite Hsame, get_set_eq. by eexists. }
  destruct (_download_file_spec E (recorded E self u1 dest1 (clock w) body1)
              u2 dest2 w2)
    as (b & self' & w3 & steps' & Hrun2 & _ & _ & _ & _ & Hcase).
  destruct Hcase as [(-> & -> & _)|(_ & body & Hget' & Hok & Hu & Hc & _)].
  - by exists w3.
  - destruct (covered_not_recordable _ _ w2 Hcov). by exists body.
Qed.

(** X5: a batch of links whose URLs all have a record downloads nothing
    new: the loop of [scrape_visa_type] returns the count and the store
    unchanged, whatever the transfers do. *)
Theorem known_links_record_nothing (visa_type : string) (file_links : list link)
    (n : nat) (self : scraper) (w : world) :
  Forall (λ l, is_Some (Dict.get (link_url l) (metadata self))) file_links →
  ∃ w', download_links E visa_type file_links n self w
        = (Returned (n, self), w').
Proof.
  intros Hknown.
  destruct (download_links_spec visa_type file_links n self w)
    as (n' & self' & w' & Hrun & _ & _ & _ & _ & _ & Hnone).
  destruct Hnone as [-> ->]; [|by exists w'].
  eapply Forall_impl; [exact Hknown|]. intros l Hl. by left.
Qed.

(** X6: [scrape_all] never raises.  It returns one count for each of the
    three visa types, in the order of [BASE_URLS]; the counts add up to the
    number of records the scrape added, and every record and every checksum
    from before is still there, unchanged. *)
Theorem scrape_all_counts_new_records (self : scraper) (w : world) :
  ∃ c1 c2 c3 self' w',
    scrape_all E self w
    = (Returned ([("h1b", c1); ("h2a", c2); ("h2b", c3)], self'), w')
    ∧ length (metadata self') = length (metadata self) + (c1 + c2 + c3)
    ∧ store_extends self self'.
Proof.
  destruct (scrape_all_spec self w)
    as (c1 & c2 & c3 & self' & w' & Hrun & Hext & Hlen & _).
  by exists c1, c2, c3, self', w'.
Qed.

(** X7: scraping keeps the invariant of the store.  When no two records
    share a checksum and the two dictionaries mirror each other, the same
    holds after [scrape_all], whatever the site serves and whatever fails. *)
Theorem scrape_all_keeps_invariant (self : scraper) (w : world) :
  store_ok self →
  ∃ results self' w',
    scrape_all E self w = (Returned (results, self'), w') ∧ store_ok self'.
Proof.
  intros Hself.
  destruct (scrape_all_spec self w)
    as (c1 & c2 & c3 & self' & w' & Hrun & _ & _ & Hok & _).
  eexists _, self', w'. split; [done | by apply Hok].
Qed.

(** X8: scraping twice records nothing the second time.  After a
    [scrape_all] that met no input/output fault, a second [scrape_all]
    against the same site returns zero for each visa type and leaves the
    store as it is, even if faults strike the second one. *)
Theorem scrape_all_twice_adds_nothing (self : scraper) (w : world) :
  faults w = [] →
  ∃ results self1 w1,
    scrape_all E self w = (Returned (results, self1), w1)
    ∧ ∀ w2, ∃ w3,
        scrape_all E self1 w2
        = (Returned ([("h1b", 0); ("h2a", 0); ("h2b", 0)], self1), w3).
Proof.
  intros Hfaults.
  destruct (scrape_all_spec self w)
    as (c1 & c2 & c3 & self1 & w1 & Hrun & _ & _ & _ & Hcov & _).
  eexists _, self1, w1. split; [done|]. intros w2.
  destruct (scrape_all_spec self1 w2)
    as (d1 & d2 & d3 & self2 & w3 & Hrun2 & _ & _ & _ & _ & Hnone).
  destruct (Hnone (Hcov Hfaults)) as (-> & -> & -> & ->). by exists w3.
Qed.

End batch_facts.

(** ** Saving and loading back *)

Lemma no_fault_within_split (a b : nat) (w : world) :
  no_fault_within (a + b) w →
  no_fault_within a w
  ∧ ∀ w1, faults w1 = drop a (faults w) → no_fault_within b w1.
Proof.
  unfold no_fault_within. generalize (faults w). clear w.
  induction a as [|a IH]; intros fs Hfs; simpl in *.
  - split; [constructor|]. intros w1 ->. by rewrite drop_0.
  - destruct fs as [|f fs]; simpl in *.
    + split; [constructor|]. intros w1 ->. by rewrite take_nil.
    + apply Forall_cons_1 in Hfs as [Hf Hfs]. destruct (IH fs Hfs) as [Ha Hb].
      split; [by constructor | done].
Qed.

(** A save that meets no fault. *)
Lemma save_text_succeeds (temp_file target : path) (text : string) (w : world) :
  no_fault_within 2 w →
  ∃ w', save_text temp_file target text w = (Returned (), w')
        ∧ faults w' = drop 2 (faults w)
        ∧ clock w' = clock w
        ∧ disk w' = Dict.set target text
                      (Dict.del temp_file (Dict.set temp_file text (disk w))).
Proof.
  intros Hok. unfold save_text.
  destruct (write_text_spec temp_file text w)
    as (o & w1 & steps & Hwrite & Hfaults1 & Hclock1 & _ & _ & Hcase).
  rewrite (no_fault_within_next 1 w Hok) in Hcase. destruct Hcase as [-> Hdisk1].
  destruct (replace_spec temp_file target w1)
    as (o2 & w2 & Hrep & Hfaults2 & Hclock2 & Hcase2).
  rewrite Hdisk1, get_set_eq in Hcase2.
  rewrite (no_fault_within_next 0 w1) in Hcase2
    by by eapply no_fault_within_tail.
  destruct Hcase2 as (-> & Hdisk2 & _).
  exists w2. unfold try_catch, bind. rewrite Hwrite, Hrep.
  split; [done|]. split; [|split; [congruence | done]].
  rewrite Hfaults2, Hfaults1. by destruct (faults w) as [|? [|? ?]].
Qed.

Section save_load_facts.
Variable E : env.

(** X9: a save that meets no fault in its write and its rename leaves the
    dump of the dictionary in the state file, removes the temporary file and
    touches no other file.  This holds for [_save_metadata] and for
    [_save_checksums]. *)
Theorem successful_save_replaces_file (self : scraper) (w : world) :
  no_fault_within 2 w →
  (∃ w', _save_metadata E self w = (Returned (), w')
         ∧ Dict.get metadata_file (disk w')
           = Some (json_dump_metadata E (metadata self))
         ∧ Dict.get (InRoot "metadata.tmp") (disk w') = None
         ∧ ∀ p, p ≠ metadata_file → p ≠ InRoot "metadata.tmp" →
                Dict.get p (disk w') = Dict.get p (disk w))
  ∧ (∃ w', _save_checksums E self w = (Returned (), w')
           ∧ Dict.get checksums_file (disk w')
             = Some (json_dump_checksums E (checksums self))
           ∧ Dict.get (InRoot "checksums.tmp") (disk w') = None
           ∧ ∀ p, p ≠ checksums_file → p ≠ InRoot "checksums.tmp" →
                  Dict.get p (disk w') = Dict.get p (disk w)).
Proof.
  intros Hok. split.
  - destruct (save_text_succeeds (InRoot "metadata.tmp") metadata_file
                (json_dump_metadata E (metadata self)) w Hok)
      as (w' & Hrun & _ & _ & Hdisk).
    exists w'. split; [done|]. rewrite Hdisk. split; [apply get_set_eq|].
    split; [by rewrite get_set_ne, get_del_eq|].
    intros p Hp Hp'. by rewrite get_set_ne, get_del_ne, get_set_ne.
  - destruct (save_text_succeeds (InRoot "checksums.tmp") checksums_file
                (json_dump_checksums E (checksums self)) w Hok)
      as (w' & Hrun & _ & _ & Hdisk).
    exists w'. split; [done|]. rewrite Hdisk. split; [apply get_set_eq|].
    split; [by rewrite get_set_ne, get_del_eq|].
    intros p Hp Hp'. by rewrite get_set_ne, get_del_ne, get_set_ne.
Qed.

(** X10: what is saved is what a restart loads.  When the two saves meet no
    fault, a scraper created afterwards has, for each dictionary, what
    [json.load] makes of the dump of the saved one. *)
Theorem saved_store_is_loaded_back (self : scraper) (w : world)
    (m : list (url * meta)) (c : list (checksum_t * url)) :
  no_fault_within 4 w →
  json_load_metadata E (json_dump_metadata E (metadata self)) = Some m →
  json_load_checksums E (json_dump_checksums E (checksums self)) = Some c →
  ∃ w', (persist E self ;;; new_scraper E) w
        = (Returned {| metadata := m; checksums := c |}, w').
Proof.
  intros Hok Hm Hc.
  destruct (no_fault_within_split 2 2 w Hok) as [Hok1 Hok2].
  destruct (save_text_succeeds (InRoot "metadata.tmp") metadata_file
              (json_dump_metadata E (metadata self)) w Hok1)
    as (w1 & Hrun1 & Hfaults1 & _ & Hdisk1).
  destruct (save_text_succeeds (InRoot "checksums.tmp") checksums_file
              (json_dump_checksums E (checksums self)) w1 (Hok2 w1 Hfaults1))
    as (w2 & Hrun2 & _ & _ & Hdisk2).
  assert (Dict.get metadata_file (disk w2)
          = Some (json_dump_metadata E (metadata self))) as Hfile1.
  { rewrite Hdisk2, get_set_ne, get_del_ne, get_set_ne, Hdisk1 by done.
    apply get_set_eq. }
  assert (Dict.get checksums_file (disk w2)
          = Some (json_dump_checksums E (checksums self))) as Hfile2.
  { rewrite Hdisk2. apply get_set_eq. }
  exists w2. unfold persist. unfold bind at 1 2.
  change (_save_metadata E self w) with
    (save_text (InRoot "metadata.tmp") metadata_file
       (json_dump_metadata E (metadata self)) w).
  rewrite Hrun1.
  change (_save_checksums E self w1) with
    (save_text (InRoot "checksums.tmp") checksums_file
       (json_dump_checksums E (checksums self)) w1).
  rewrite Hrun2.
  unfold new_scraper, _load_metadata, _load_checksums. io_unfold.
  unfold Dict.mem. simpl. rewrite Hfile1. simpl. rewrite Hfile1. simpl.
  rewrite Hm. simpl. rewrite Hfile2. simpl. rewrite Hfile2. simpl.
  by rewrite Hc.
Qed.

End save_load_facts.

(** ** The consistency checker, as a whole *)

Section cleanup_facts.
Variable E : env.

Lemma current_checksum_None (d : list (path * string)) (name : string) :
  current_checksum E d name = None ↔ locate d name = None.
Proof.
  unfold current_checksum.
  destruct (locate d name) as [p|] eqn:Hloc; [|done].
  destruct (locate_exists _ _ _ Hloc) as [bytes ->]. done.
Qed.

(** The two saves touch the four state files only. *)
Lemma persist_frame (self : scraper) (w w' : world) (p : path) :
  persist E self w = (Returned (), w') →
  p ∉ state_files →
  Dict.get p (disk w') = Dict.get p (disk w).
Proof.
  intros Hrun Hp.
  destruct (_save_metadata_spec E self w)
    as (w1 & steps1 & Hrun1 & _ & _ & Hstates1 & _).
  destruct (_save_checksums_spec E self w1)
    as (w2 & steps2 & Hrun2 & _ & _ & Hstates2 & _).
  unfold persist, bind in Hrun. rewrite Hrun1, Hrun2 in Hrun.
  injection Hrun as <-.
  apply Forall_cons_1 in Hstates1 as [[Hoff1 _] _].
  apply Forall_cons_1 in Hstates2 as [[Hoff2 _] _].
  unfold state_files in Hp.
  rewrite Hoff2, Hoff1; [done|..]; intros ->; apply Hp; by repeat constructor.
Qed.

(** What [cleanup_inconsistencies] amounts to: the turns of the loop, the
    scan for orphans, and the two saves when something was repaired. *)
Lemma cleanup_inconsistencies_run (self : scraper) (w : world) :
  let st := foldl (checked E (disk w))
              (self, {| missing_files := []; checksum_mismatches := [];
                        orphaned_files := [] |}) (metadata self) in
  ∃ w',
    cleanup_inconsistencies E self w
    = (Returned ({| missing_files := missing_files st.2;
                    checksum_mismatches := checksum_mismatches st.2;
                    orphaned_files :=
                      orphaned_files st.2
                      ++ orphans (disk w)
                           (filename <$> Dict.values (metadata st.1)) |},
                 st.1), w')
    ∧ ((missing_files st.2 = [] ∧ checksum_mismatches st.2 = [] ∧ w' = w)
       ∨ ((missing_files st.2 ≠ [] ∨ checksum_mismatches st.2 ≠ [])
          ∧ persist E st.1 w = (Returned (), w'))).
Proof.
  intros st. unfold cleanup_inconsistencies.
  unfold bind at 1. rewrite check_records_checked. fold st.
  change (_save_metadata E st.1 ;;; _save_checksums E st.1)
    with (persist E st.1).
  destruct (persist_returns E st.1 w) as (w' & Hrun).
  unfold bind, get_disk, ret. simpl.
  destruct (missing_files st.2) as [|x xs];
    [destruct (checksum_mismatches st.2) as [|y ys]|].
  - exists w. split; [done|]. by left.
  - exists w'. rewrite Hrun. split; [done|]. right. split; [by right | done].
  - exists w'. rewrite Hrun. split; [done|]. right. split; [by left | done].
Qed.

Lemma foldl_checked_report (d : list (path * string))
    (items : list (url * meta)) (st : scraper * issues) :
  let st' := foldl (checked E d) st items in
  missing_files st'.2
  = missing_files st.2
    ++ ((λ um, filename um.2) <$> List.filter (file_missing E d) items)
  ∧ checksum_mismatches st'.2
    = checksum_mismatches st.2
      ++ ((λ um, filename um.2) <$> List.filter (file_changed E d) items)
  ∧ orphaned_files st'.2 = orphaned_files st.2.
Proof.
  revert st. induction items as [|um items IH]; intros st; simpl.
  - by rewrite !app_nil_r.
  - destruct (IH (checked E d st um)) as (H1 & H2 & H3). rewrite H1, H2, H3.
    unfold checked, file_missing, file_changed.
    destruct (current_checksum E d (filename um.2)) as [c|]; simpl.
    + destruct (decide (c = checksum um.2)) as [Heq|Hne].
      * by rewrite bool_decide_false by (by intros ?).
      * rewrite bool_decide_true by done. simpl.
        by rewrite <- (assoc_L (++)).
    + by rewrite <- (assoc_L (++)).
Qed.

Lemma foldl_checked_same (d : list (path * string))
    (items : list (url * meta)) (st : scraper * issues) :
  Forall (λ um, current_checksum E d (filename um.2) = Some (checksum um.2))
    items →
  foldl (checked E d) st items = st.
Proof.
  revert st. induction items as [|um items IH]; intros st Hall; simpl; [done|].
  apply Forall_cons_1 in Hall as [Hum Hall].
  rewrite IH by done. unfold checked. rewrite Hum. by rewrite decide_True.
Qed.

Lemma foldl_checked_absent (d : list (path * string))
    (items : list (url * meta)) (st : scraper * issues) (u : url) :
  Dict.get u (metadata st.1) = None →
  Dict.get u (metadata (foldl (checked E d) st items).1) = None.
Proof.
  revert st. induction items as [|um items IH]; intros st Hu; simpl; [done|].
  by apply IH, checked_keeps_absent.
Qed.

Lemma foldl_checked_match (d : list (path * string))
    (items : list (url * meta)) (st : scraper * issues) (u : url) (m : meta) :
  NoDup items.*1 → (u, m) ∈ items →
  Dict.get u (metadata st.1) = Some m →
  current_checksum E d (filename m) = Some (checksum m) →
  Dict.get u (metadata (foldl (checked E d) st items).1) = Some m.
Proof.
  revert st. induction items as [|um items IH]; intros st Hnd Hin Hu Hcur; simpl.
  - by apply elem_of_nil in Hin.
  - apply NoDup_cons in Hnd as [Hum Hnd].
    apply elem_of_cons in Hin as [<-|Hin].
    + destruct (foldl_checked_others E d items (checked E d st (u, m)) u ""
                  Hum) as [-> _].
      unfold checked. simpl. rewrite Hcur. by rewrite decide_True.
    + apply IH; try done. rewrite checked_other; [done|].
      intros Heq. apply Hum. rewrite Heq.
      apply list_elem_of_fmap. by exists (u, m).
Qed.

Lemma orphans_elem (d : list (path * string)) (tracked : list string)
    (x : string) :
  x ∈ orphans d tracked
  ↔ ∃ v name, x = v +:+ "/" +:+ name
              ∧ v ∈ Dict.keys BASE_URLS
              ∧ InVisa v name ∈ Dict.keys d
              ∧ name ∉ tracked.
Proof.
  unfold orphans. rewrite list_elem_of_bind. split.
  - intros (v & Hx & Hv). apply list_elem_of_bind in Hx as (p & Hx & Hp).
    destruct p as [|v' name|]; try by apply elem_of_nil in Hx.
    destruct (decide (v' = v)) as [->|]; [|by apply elem_of_nil in Hx].
    destruct (decide (name ∈ tracked)); [by apply elem_of_nil in Hx|].
    apply list_elem_of_singleton in Hx. by exists v, name.
  - intros (v & name & -> & Hv & Hp & Hname). exists v. split; [|done].
    apply list_elem_of_bind. exists (InVisa v name). split; [|done].
    rewrite decide_True, decide_False by done. by apply list_elem_of_singleton.
Qed.

(** X11: on a store that agrees with the disk, the consistency check
    changes nothing.  When the file of every record is found with the
    recorded checksum, [cleanup_inconsistencies] reports no missing file and
    no mismatch, returns the store as it is and writes nothing: the world is
    the same, whatever orphaned files it reports. *)
Theorem consistent_store_is_left_alone (self : scraper) (w : world) :
  Forall (λ um, current_checksum E (disk w) (filename um.2)
                = Some (checksum um.2)) (metadata self) →
  cleanup_inconsistencies E self w
  = (Returned ({| missing_files := [];
                  checksum_mismatches := [];
                  orphaned_files :=
                    orphans (disk w) (filename <$> Dict.values (metadata self)) |},
               self), w).
Proof.
  intros Hall.
  destruct (cleanup_inconsistencies_run self w) as (w' & Hrun & Hcase).
  rewrite (foldl_checked_same _ _ _ Hall) in Hrun, Hcase. simpl in *.
  destruct Hcase as [(_ & _ & ->)|([?|?] & _)]; done.
Qed.

Lemma foldl_checked_records (self : scraper) (d : list (path * string))
    (u : url) :
  Dict.wf (metadata self) →
  Dict.get u (metadata (foldl (checked E d)
                          (self, {| missing_files := [];
                                    checksum_mismatches := [];
                                    orphaned_files := [] |})
                          (metadata self)).1)
  = m ← Dict.get u (metadata self);
    c ← current_checksum E d (filename m);
    Some (with_checksum c m).
Proof.
  intros Hwf. destruct (Dict.get u (metadata self)) as [m|] eqn:Hu; simpl.
  - pose proof (get_elem_of _ _ _ Hu) as Hin.
    destruct (current_checksum E d (filename m)) as [c|] eqn:Hcur; simpl.
    + destruct (decide (c = checksum m)) as [->|Hne].
      * replace (with_checksum (checksum m) m) with m by by destruct m.
        by apply foldl_checked_match.
      * by destruct (foldl_checked_mismatch E d (metadata self)
                       (self, {| missing_files := []; checksum_mismatches := [];
                                 orphaned_files := [] |}) u m c).
    + apply current_checksum_None in Hcur.
      by destruct (foldl_checked_missing E d (metadata self)
                     (metadata self)
                     (self, {| missing_files := []; checksum_mismatches := [];
                               orphaned_files := [] |}) u m).
  - by apply foldl_checked_absent.
Qed.

(** X12: what the consistency check makes of the records.  On a store whose
    URLs are distinct, after [cleanup_inconsistencies] a URL has a record
    exactly when it had one before and the file of that record was found; the
    record is the former one with the checksum computed from the file.  So
    every record left names a file that exists, with its checksum. *)
Theorem repaired_records_match_the_disk (self : scraper) (w : world) :
  Dict.wf (metadata self) →
  ∃ found self' w',
    cleanup_inconsistencies E self w = (Returned (found, self'), w')
    ∧ (∀ u, Dict.get u (metadata self')
            = m ← Dict.get u (metadata self);
              c ← current_checksum E (disk w) (filename m);
              Some (with_checksum c m))
    ∧ (∀ u m', Dict.get u (metadata self') = Some m' →
               current_checksum E (disk w) (filename m') = Some (checksum m')).
Proof.
  intros Hwf.
  destruct (cleanup_inconsistencies_run self w) as (w' & Hrun & _).
  pose proof (λ u, foldl_checked_records self (disk w) u Hwf) as Hget.
  eexists _, _, w'. split; [done|]. split; [done|].
  intros u m'. rewrite Hget.
  destruct (Dict.get u (metadata self)) as [m|]; simpl; [|done].
  destruct (current_checksum E (disk w) (filename m)) as [c|] eqn:Hcur;
    simpl; [|done].
  by intros [= <-].
Qed.

Lemma cleanup_report_lists_aux (self : scraper) (w : world) :
  ∃ found self' w',
    cleanup_inconsistencies E self w = (Returned (found, self'), w')
    ∧ missing_files found
      = (λ um, filename um.2)
          <$> List.filter (file_missing E (disk w)) (metadata self).
Proof.
  destruct (cleanup_inconsistencies_run self w) as (w' & Hrun & _).
  destruct (foldl_checked_report (disk w) (metadata self)
              (self, {| missing_files := []; checksum_mismatches := [];
                        orphaned_files := [] |}))
    as (Hmissing & _).
  eexists _, _, w'. split; [done|]. done.
Qed.

(** X13: what the report lists.  [missing_files] holds the file names of
    the records whose file is found nowhere, [checksum_mismatches] those of
    the records whose file has another checksum than the recorded one, both
    in the order of the dictionary; [orphaned_files] holds exactly the files
    of the three visa directories whose name is the file name of no record
    left, as [visa/name]. *)
Theorem cleanup_report_lists (self : scraper) (w : world) :
  ∃ found self' w',
    cleanup_inconsistencies E self w = (Returned (found, self'), w')
    ∧ missing_files found
      = (λ um, filename um.2)
          <$> List.filter (file_missing E (disk w)) (metadata self)
    ∧ checksum_mismatches found
      = (λ um, filename um.2)
          <$> List.filter (file_changed E (disk w)) (metadata self)
    ∧ ∀ x, x ∈ orphaned_files found
           ↔ ∃ v name, x = v +:+ "/" +:+ name
                       ∧ v ∈ ["h1b"; "h2a"; "h2b"]
                       ∧ InVisa v name ∈ Dict.keys (disk w)
                       ∧ ∀ um, um ∈ metadata self' → filename um.2 ≠ name.
Proof.
  destruct (cleanup_inconsistencies_run self w) as (w' & Hrun & _).
  set (st := foldl _ _ _) in Hrun.
  destruct (foldl_checked_report (disk w) (metadata self)
              (self, {| missing_files := []; checksum_mismatches := [];
                        orphaned_files := [] |}))
    as (Hmissing & Hchanged & Horphaned).
  fold st in Hmissing, Hchanged, Horphaned. simpl in *.
  eexists _, _, w'. split; [done|]. simpl.
  split; [done|]. split; [done|].
  intros x. rewrite Horphaned. simpl. rewrite orphans_elem.
  split; intros (v & name & -> & Hv & Hp & Hname); exists v, name;
    (split; [done|]); (split; [done|]); (split; [done|]).
  - intros um Hum Heq. apply Hname. unfold Dict.values.
    rewrite <- list_fmap_compose. apply list_elem_of_fmap. by exists um.
  - unfold Dict.values. rewrite <- list_fmap_compose.
    intros (um & Heq & Hum)%list_elem_of_fmap. by apply (Hname um).
Qed.

(** X14: the consistency check may write the state files, nothing else.
    However [cleanup_inconsistencies] ends, every file but [metadata.json],
    [checksums.json] and their temporary files was at no step written,
    replaced or deleted, and is as before: no tracked file and no orphan is
    deleted or changed.  When it returns with nothing missing and nothing
    mismatched, nothing at all was written. *)
Theorem cleanup_touches_only_state_files (self : scraper) (w w' : world)
    (o : outcome (issues * scraper)) :
  cleanup_inconsistencies E self w = (o, w') →
  (∀ p, p ∉ state_files →
        untouched p w w' ∧ Dict.get p (disk w') = Dict.get p (disk w))
  ∧ (∀ found self', o = Returned (found, self') →
       missing_files found = [] → checksum_mismatches found = [] → w' = w).
Proof.
  intros Hrun. split.
  - intros p Hp.
    destruct (leaves_cleanup_inconsistencies E p Hp self w) as [Hleft _].
    rewrite Hrun in Hleft. simpl in Hleft. split; [done|]. by destruct Hleft as (Hget & _).
  - intros found self' -> Hmissing Hchanged.
    destruct (cleanup_inconsistencies_run self w) as (w1 & Hrun1 & Hcase).
    rewrite Hrun in Hrun1. injection Hrun1 as -> -> <-. simpl in *.
    destruct Hcase as [(_ & _ & ->)|([Hne|Hne] & _)]; done.
Qed.

End cleanup_facts.

(** ** The retry scheduler, in numbers *)

(** X15: the backoff is bounded and doubles.  For every attempt number
    from 1 on, the sleep is between [BACKOFF_BASE_SECONDS] and
    [BACKOFF_MAX_SECONDS]; the sleep after the next attempt is twice as long,
    cut at [BACKOFF_MAX_SECONDS], so it is never shorter. *)
Theorem backoff_doubles_up_to_the_cap (n : nat) :
  1 ≤ n →
  BACKOFF_BASE_SECONDS ≤ backoff n ≤ BACKOFF_MAX_SECONDS
  ∧ backoff (S n) = (2 * backoff n) `min` BACKOFF_MAX_SECONDS
  ∧ backoff n ≤ backoff (S n).
Proof.
  intros Hn. unfold backoff, BACKOFF_BASE_SECONDS, BACKOFF_MAX_SECONDS.
  destruct n as [|k]; [lia|].
  replace (S (S k) - 1) with (S k) by lia.
  replace (S k - 1) with k by lia.
  rewrite Nat.pow_succ_r'.
  pose proof (Nat.pow_nonzero 2 k ltac:(lia)) as Hpos.
  change (30 * 60) with 1800. lia.
Qed.

Section job_facts.
Variable E : env.

(** X16: a job is bounded.  [scheduled_job_with_retry] always ends, after
    at most [MAX_RETRIES] attempts; it sleeps once less than it attempts, and
    the sleeps add up to 900 seconds at most. *)
Theorem job_is_bounded (w : world) :
  ∃ e, scheduled_job_with_retry E w = Some e
       ∧ attempt (final e) ≤ MAX_RETRIES
       ∧ length (slept (final e)) = attempt (final e) - 1
       ∧ sum_list (slept (final e)) ≤ 900.
Proof.
  destruct (retry_loop_ends E MAX_RETRIES
              {| attempt := 0; success := false; slept := []; outside := w |})
    as (j & Hloop & (Hle & Hslept & _) & Hend);
    [unfold MAX_RETRIES; simpl; lia | apply job_inv_start |].
  assert (slept j = backoff <$> seq 1 (attempt j - 1)) as Hslept'.
  { rewrite Hslept. destruct (success j); [done|].
    destruct Hend as [?| ->]; done. }
  assert (length (slept j) = attempt j - 1 ∧ sum_list (slept j) ≤ 900)
    as [Hlen Hsum].
  { rewrite Hslept'. rewrite length_fmap, length_seq. split; [done|].
    unfold MAX_RETRIES in Hle.
    destruct (attempt j) as [|[|[|[|[|[|k]]]]]]; simpl; try lia.
    all: vm_compute; lia. }
  unfold scheduled_job_with_retry. rewrite Hloop.
  destruct (success j); eexists; (split; [done|]); simpl; done.
Qed.

End job_facts.

(** ** A scrape followed by the consistency check *)

Lemma elem_of_set {K V : Type} `{EqDecision K} (k : K) (v : V)
    (d : list (K * V)) (x : K * V) :
  x ∈ Dict.set k v d → x = (k, v) ∨ x ∈ d.
Proof.
  induction d as [|[k0 v0] d IH]; simpl.
  - intros ->%list_elem_of_singleton. by left.
  - destruct (decide (k = k0)) as [->|Hne].
    + intros [->|Hx]%elem_of_cons; [by left|].
      right. by apply list_elem_of_further.
    + intros [->|Hx]%elem_of_cons; [right; apply list_elem_of_here|].
      destruct (IH Hx) as [->|Hd]; [by left|].
      right. by apply list_elem_of_further.
Qed.

Lemma locate_found (d : list (path * string)) (name v : string) :
  v ∈ Dict.keys BASE_URLS →
  is_Some (Dict.get (InVisa v name) d) →
  is_Some (locate d name).
Proof.
  intros Hv Hfile. unfold locate.
  destruct (List.find _ _) as [p|] eqn:Hfind; [by eexists|].
  exfalso. eapply find_none in Hfind.
  - apply mem_false in Hfind. rewrite Hfind in Hfile. by destruct Hfile.
  - apply list_elem_of_In, list_elem_of_fmap. by exists v.
Qed.

Lemma filter_nil_Forall {A} (f : A → bool) (l : list A) :
  Forall (λ x, f x = false) l → List.filter f l = [].
Proof.
  induction l as [|x l IH]; simpl; [done|].
  intros [-> Hl]%Forall_cons_1. by apply IH.
Qed.

Section cycle_facts.
Variable E : env.

Lemma download_keeps_files_present (self self' : scraper) (u : url)
    (v name : string) (b : bool) (w w' : world) :
  v ∈ Dict.keys BASE_URLS →
  files_present self (disk w) →
  _download_file E self u (InVisa v name) w = (Returned (b, self'), w') →
  files_present self' (disk w').
Proof.
  intros Hv Hfiles Hrun.
  destruct (_download_file_spec E self u (InVisa v name) w)
    as (b' & self1 & w1 & steps & Hrun' & _ & _ & _ & _ & Hcase).
  rewrite Hrun in Hrun'. injection Hrun' as <- <- <-.
  destruct Hcase as [(_ & -> & _ & Hdisk)
                    |(_ & body & _ & _ & _ & _ & -> & Hdisk)].
  - destruct Hdisk as [->|(_ & s & ->)]; [done|].
    eapply Forall_impl; [exact Hfiles|]. intros um (v' & Hv' & Hfile).
    exists v'. split; [done|]. rewrite get_set_ne; [done|].
    by apply fresh_temp_outside.
  - rewrite Hdisk. apply Forall_forall. intros um Hum.
    apply elem_of_set in Hum as [->|Hum].
    + exists v. split; [done|]. simpl. rewrite get_set_eq. by eexists.
    + apply (proj1 (Forall_forall _ _) Hfiles) in Hum as (v' & Hv' & Hfile).
      exists v'. split; [done|]. rewrite get_set.
      case_decide; [by eexists | done].
Qed.

Lemma download_links_keeps_files_present (v : string) (file_links : list link)
    (n n' : nat) (self self' : scraper) (w w' : world) :
  v ∈ Dict.keys BASE_URLS →
  files_present self (disk w) →
  download_links E v file_links n self w = (Returned (n', self'), w') →
  files_present self' (disk w').
Proof.
  intros Hv. revert n self w.
  induction file_links as [|l rest IH]; intros n self w Hfiles; simpl.
  - by intros [= _ <- <-].
  - intros Hrun. apply bind_returned in Hrun as ([b self1] & w1 & Hrun1 & Hrun).
    eapply IH; [|exact Hrun]. by eapply download_keeps_files_present.
Qed.

Lemma scrape_each_keeps_files_present (visa_types : list string)
    (results results' : list (string * nat)) (self self' : scraper)
    (w w' : world) :
  Forall (λ v, v ∈ Dict.keys BASE_URLS) visa_types →
  files_present self (disk w) →
  scrape_each E visa_types results self w = (Returned (results', self'), w') →
  files_present self' (disk w').
Proof.
  revert results self w.
  induction visa_types as [|v vs IH]; intros results self w Hvs Hfiles; simpl.
  - by intros [= _ <- <-].
  - apply Forall_cons_1 in Hvs as [Hv Hvs].
    intros Hrun. apply bind_returned in Hrun as ([c self1] & w1 & Hrun1 & Hrun).
    rewrite scrape_visa_type_as_links in Hrun1.
    eapply IH; [done| |exact Hrun].
    by eapply download_links_keeps_files_present.
Qed.

(** X17: a scrape never loses a file.  When every record names a file that
    exists in a visa directory, the same holds after [scrape_all], and the
    consistency check that follows reports no missing file. *)
Theorem cycle_reports_no_missing_file (self : scraper) (w : world) :
  files_present self (disk w) →
  ∃ results self1 w1 found self2 w2,
    scrape_all E self w = (Returned (results, self1), w1)
    ∧ files_present self1 (disk w1)
    ∧ cleanup_inconsistencies E self1 w1 = (Returned (found, self2), w2)
    ∧ missing_files found = [].
Proof.
  intros Hfiles.
  destruct (scrape_all_spec E self w)
    as (c1 & c2 & c3 & self1 & w1 & Hrun & _).
  assert (files_present self1 (disk w1)) as Hfiles1.
  { unfold scrape_all in Hrun.
    apply bind_returned in Hrun as ([r self'] & wa & Heach & Hrun).
    apply bind_returned in Hrun as ([] & wb & Hsave1 & Hrun).
    apply bind_returned in Hrun as ([] & wc & Hsave2 & Hrun).
    injection Hrun as _ <- <-.
    change ((r, self').2) with self' in *.
    assert (files_present self' (disk wa)) as Hfilesa.
    { eapply (scrape_each_keeps_files_present (Dict.keys BASE_URLS) []);
        [|exact Hfiles|exact Heach].
      apply Forall_forall. by intros v Hv. }
    assert (persist E self' wa = (Returned (), wc)) as Hpersist
      by (unfold persist, bind; by rewrite Hsave1).
    eapply Forall_impl; [exact Hfilesa|]. intros um (v & Hv & Hfile).
    exists v. split; [done|].
    rewrite (persist_frame E self' wa wc _ Hpersist); [done|].
    unfold state_files. intros Hin.
    repeat (apply elem_of_cons in Hin as [?|Hin]; [done|]).
    by apply elem_of_nil in Hin. }
  destruct (cleanup_report_lists_aux E self1 w1)
    as (found & self2 & w2 & Hclean & Hmissing).
  exists [("h1b", c1); ("h2a", c2); ("h2b", c3)], self1, w1, found, self2, w2.
  split; [done|]. split; [done|]. split; [done|].
  rewrite Hmissing. rewrite filter_nil_Forall; [done|].
  eapply Forall_impl; [exact Hfiles1|]. intros um (v & Hv & Hfile).
  unfold file_missing.
  destruct (current_checksum E (disk w1) (filename um.2)) as [c|] eqn:Hcur;
    [done|].
  apply current_checksum_None in Hcur.
  destruct (locate_found (disk w1) (filename um.2) v Hv Hfile) as [p Hp].
  congruence.
Qed.

End cycle_facts.

(** ** The consistency check, run again *)

Lemma keys_alter {K V : Type} `{EqDecision K} (f : V → V) (k : K)
    (d : list (K * V)) :
  Dict.keys (Dict.alter f k d) = Dict.keys d.
Proof.
  unfold Dict.keys. induction d as [|[k0 v0] d IH]; simpl; [done|].
  destruct (decide (k = k0)); simpl; [done|]. f_equal. exact IH.
Qed.

Lemma keys_del {K V : Type} `{EqDecision K} (k : K) (d : list (K * V)) :
  Dict.keys (Dict.del k d) `sublist_of` Dict.keys d.
Proof.
  unfold Dict.keys. induction d as [|[k0 v0] d IH]; simpl; [done|].
  destruct (decide (k = k0)); simpl.
  - by apply sublist_cons.
  - by apply sublist_skip.
Qed.

Lemma locate_shape (d : list (path * string)) (name : string) (p : path) :
  locate d name = Some p → p = InRoot name ∨ ∃ v, p = InVisa v name.
Proof.
  unfold locate. destruct (List.find _ _) as [q|] eqn:Hfind.
  - intros [= <-]. apply find_some in Hfind as [Hin _].
    apply list_elem_of_In, list_elem_of_fmap in Hin as (v & -> & _).
    right. by exists v.
  - destruct (Dict.mem _ _); [|done]. intros [= <-]. by left.
Qed.

Lemma not_state_file (v name : string) : InVisa v name ∉ state_files.
Proof.
  unfold state_files. intros Hin.
  repeat (apply elem_of_cons in Hin as [?|Hin]; [done|]).
  by apply elem_of_nil in Hin.
Qed.

Section recheck_facts.
Variable E : env.

Lemma foldl_checked_wf (d : list (path * string)) (items : list (url * meta))
    (st : scraper * issues) :
  Dict.wf (metadata st.1) →
  Dict.wf (metadata (foldl (checked E d) st items).1).
Proof.
  revert st. induction items as [|um items IH]; intros st Hwf; simpl; [done|].
  apply IH. unfold checked.
  destruct (current_checksum E d (filename um.2)) as [c|]; simpl.
  - destruct (decide (c = checksum um.2)); [done|]. simpl.
    unfold Dict.wf. by rewrite keys_alter.
  - unfold Dict.wf. eapply sublist_NoDup; [exact Hwf | apply keys_del].
Qed.

Lemma current_checksum_frame (d d' : list (path * string)) (name : string) :
  (∀ p, p ∉ state_files → Dict.get p d' = Dict.get p d) →
  InRoot name ∉ state_files →
  current_checksum E d' name = current_checksum E d name.
Proof.
  intros Hframe Hname.
  assert (locate d' name = locate d name) as Hloc.
  { unfold locate, Dict.mem. simpl.
    by rewrite !Hframe by (done || apply not_state_file). }
  unfold current_checksum. rewrite Hloc.
  destruct (locate d name) as [p|] eqn:Hp; [|done].
  rewrite Hframe; [done|].
  apply locate_shape in Hp as [->|[v ->]]; [done | apply not_state_file].
Qed.

(** X18: the consistency check settles in one run.  On a store whose URLs
    are distinct and whose file names are not those of the state files,
    running [cleanup_inconsistencies] again right after a run finds nothing
    missing and no mismatch, keeps the store and writes nothing. *)
Theorem cleanup_twice_changes_nothing (self : scraper) (w : world) :
  Dict.wf (metadata self) →
  Forall (λ um, InRoot (filename um.2) ∉ state_files) (metadata self) →
  ∃ found self1 w1 orphaned,
    cleanup_inconsistencies E self w = (Returned (found, self1), w1)
    ∧ cleanup_inconsistencies E self1 w1
      = (Returned ({| missing_files := []; checksum_mismatches := [];
                      orphaned_files := orphaned |}, self1), w1).
Proof.
  intros Hwf Hnames.
  destruct (cleanup_inconsistencies_run E self w) as (w1 & Hrun & Hcase).
  set (st := foldl _ _ _) in Hrun, Hcase.
  assert (∀ p, p ∉ state_files → Dict.get p (disk w1) = Dict.get p (disk w))
    as Hframe.
  { destruct Hcase as [(_ & _ & ->)|(_ & Hsave)]; [done|].
    intros p Hp. by eapply persist_frame. }
  assert (Forall (λ um, current_checksum E (disk w1) (filename um.2)
                        = Some (checksum um.2)) (metadata st.1)) as Hall.
  { apply Forall_forall. intros [u m'] Hin. simpl.
    apply elem_of_get in Hin; [|by apply foldl_checked_wf].
    unfold st in Hin. rewrite foldl_checked_records in Hin by done.
    destruct (Dict.get u (metadata self)) as [m|] eqn:Hu; simpl in Hin; [|done].
    destruct (current_checksum E (disk w) (filename m)) as [c|] eqn:Hcur;
      simpl in Hin; [|done].
    injection Hin as <-. simpl.
    rewrite current_checksum_frame with (d := disk w); [done..|].
    apply get_elem_of in Hu.
    by apply (proj1 (Forall_forall _ _) Hnames) in Hu. }
  destruct (cleanup_inconsistencies_run E st.1 w1) as (w2 & Hrun2 & Hcase2).
  rewrite (foldl_checked_same E _ _ _ Hall) in Hrun2, Hcase2. simpl in *.
  eexists _, st.1, w1, _. split; [exact Hrun|].
  destruct Hcase2 as [(_ & _ & ->)|([?|?] & _)]; [|done..].
  exact Hrun2.
Qed.

End recheck_facts.

(** ** Concrete runs of the further properties *)

(** An instance: the first file of [twin_site], on an empty store. *)
Lemma new_download_is_recorded_witness :
  ∃ w', _download_file twin_site empty_store url_a
          (InVisa "h1b" "h1b_2024.csv") third_write_fails
        = (Returned (true, recorded twin_site empty_store url_a
                             (InVisa "h1b" "h1b_2024.csv")
                             "2026-01-01T02:00:00" "employer,2024"), w')
        ∧ disk w' = [(InVisa "h1b" "h1b_2024.csv", "employer,2024")].
Proof.
  apply (new_download_is_recorded twin_site empty_store url_a
           (InVisa "h1b" "h1b_2024.csv") "employer,2024" third_write_fails).
  - reflexivity.
  - repeat constructor.
  - reflexivity.
  - reflexivity.
Defined.

(** An instance: a download to a file of a visa directory. *)
Lemma download_is_atomic_on_destination_witness :
  ∃ b self' w' steps,
    _download_file twin_site empty_store url_b
      (InVisa "h1b" "h1b_2024.csv") known_disk = (Returned (b, self'), w')
    ∧ trail w' = steps ++ []
    ∧ Forall (λ d,
        (Dict.get (InVisa "h1b" "h1b_2024.csv") d = Some "employer,2024"
         ∨ ∃ body, http_get twin_site url_b = Some body
                   ∧ Dict.get (InVisa "h1b" "h1b_2024.csv") d = Some body)
        ∧ ∀ p, p ≠ InVisa "h1b" "h1b_2024.csv" → in_download_dir p →
               Dict.get p d = Dict.get p (disk known_disk))
        (disk w' :: steps).
Proof.
  apply (download_is_atomic_on_destination twin_site empty_store url_b
           (InVisa "h1b" "h1b_2024.csv") known_disk).
  reflexivity.
Defined.

(** An instance: the copy of [mirror_site], after the original. *)
Lemma same_content_is_recorded_once_witness :
  ∃ w3, _download_file mirror_site
          (recorded mirror_site empty_store url_a (InVisa "h1b" "h1b_2024.csv")
             "2026-01-01T02:00:00" "employer,2024")
          url_m (InVisa "h1b" "h1b_2024_copy.csv") known_disk
        = (Returned (false,
                     recorded mirror_site empty_store url_a
                       (InVisa "h1b" "h1b_2024.csv")
                       "2026-01-01T02:00:00" "employer,2024"), w3).
Proof.
  eapply (same_content_is_recorded_once mirror_site empty_store
           (recorded mirror_site empty_store url_a (InVisa "h1b" "h1b_2024.csv")
              "2026-01-01T02:00:00" "employer,2024")
           url_a url_m (InVisa "h1b" "h1b_2024.csv")
           (InVisa "h1b" "h1b_2024_copy.csv") "employer,2024" "employer,2024"
           (Lab.world_of [] [])
           _ known_disk).
  - vm_compute. reflexivity.
  - reflexivity.
  - reflexivity.
  - reflexivity.
Defined.

(** An instance: the only link of the page is the URL of [known_store]. *)
Lemma known_links_record_nothing_witness :
  ∃ w', download_links twin_site "h1b" [Link url_a "FY2024"] 0 known_store
          known_disk
        = (Returned (0, known_store), w').
Proof.
  apply (known_links_record_nothing twin_site "h1b" [Link url_a "FY2024"] 0
           known_store known_disk).
  repeat constructor. vm_compute. eexists. reflexivity.
Defined.

(** An instance: the empty store, which pairs nothing. *)
Lemma scrape_all_keeps_invariant_witness :
  ∃ results self' w',
    scrape_all twin_site empty_store third_write_fails
    = (Returned (results, self'), w')
    ∧ store_ok self'.
Proof.
  apply (scrape_all_keeps_invariant twin_site empty_store third_write_fails).
  repeat split; intros *; simpl; discriminate.
Defined.

(** An instance: [twin_site], scraped into an empty store without a fault. *)
Lemma scrape_all_twice_adds_nothing_witness :
  ∃ results self1 w1,
    scrape_all twin_site empty_store (Lab.world_of [] [])
    = (Returned (results, self1), w1)
    ∧ ∀ w2, ∃ w3,
        scrape_all twin_site self1 w2
        = (Returned ([("h1b", 0); ("h2a", 0); ("h2b", 0)], self1), w3).
Proof.
  apply (scrape_all_twice_adds_nothing twin_site empty_store
           (Lab.world_of [] [])).
  reflexivity.
Defined.

(** An instance: a store of one record, saved over nothing. *)
Lemma successful_save_replaces_file_witness :
  (∃ w', _save_metadata empty_site stale_store third_write_fails
         = (Returned (), w')
         ∧ Dict.get metadata_file (disk w')
           = Some (json_dump_metadata empty_site (metadata stale_store))
         ∧ Dict.get (InRoot "metadata.tmp") (disk w') = None)
  ∧ (∃ w', _save_checksums empty_site stale_store third_write_fails
           = (Returned (), w')
           ∧ Dict.get checksums_file (disk w')
             = Some (json_dump_checksums empty_site (checksums stale_store))
           ∧ Dict.get (InRoot "checksums.tmp") (disk w') = None).
Proof.
  destruct (successful_save_replaces_file empty_site stale_store
              third_write_fails)
    as [(w1 & Hrun1 & Hfile1 & Htemp1 & _) (w2 & Hrun2 & Hfile2 & Htemp2 & _)].
  - repeat constructor.
  - split; [exists w1 | exists w2]; repeat split; assumption.
Defined.

(** An instance: the store of two records is saved and read back by a
    [json] that knows its dumps. *)
Lemma saved_store_is_loaded_back_witness :
  ∃ w', (persist (replaying twin_site [twins_downloaded]) twins_downloaded ;;;
         new_scraper (replaying twin_site [twins_downloaded]))
          (Lab.world_of [] [])
        = (Returned twins_downloaded, w').
Proof.
  apply (saved_store_is_loaded_back (replaying twin_site [twins_downloaded])
           twins_downloaded (Lab.world_of [] [])
           (metadata twins_downloaded) (checksums twins_downloaded)).
  - constructor.
  - vm_compute. reflexivity.
  - vm_compute. reflexivity.
Defined.

(** An instance: the file of the only record is on the disk, as recorded. *)
Lemma consistent_store_is_left_alone_witness :
  cleanup_inconsistencies twin_site known_store known_disk
  = (Returned ({| missing_files := [];
                  checksum_mismatches := [];
                  orphaned_files :=
                    orphans (disk known_disk)
                      (filename <$> Dict.values (metadata known_store)) |},
               known_store), known_disk).
Proof.
  apply (consistent_store_is_left_alone twin_site known_store known_disk).
  repeat constructor.
Defined.

(** An instance: of two records, the file of the second was changed. *)
Lemma repaired_records_match_the_disk_witness :
  ∃ found self' w',
    cleanup_inconsistencies empty_site two_records one_file_changed
    = (Returned (found, self'), w')
    ∧ (∀ u, Dict.get u (metadata self')
            = m ← Dict.get u (metadata two_records);
              c ← current_checksum empty_site (disk one_file_changed)
                    (filename m);
              Some (with_checksum c m))
    ∧ (∀ u m', Dict.get u (metadata self') = Some m' →
               current_checksum empty_site (disk one_file_changed) (filename m')
               = Some (checksum m')).
Proof.
  apply (repaired_records_match_the_disk empty_site two_records
           one_file_changed).
  apply (bool_decide_unpack _). vm_compute. exact I.
Defined.

(** An instance: the third attempt. *)
Lemma backoff_doubles_up_to_the_cap_witness :
  BACKOFF_BASE_SECONDS ≤ backoff 3 ≤ BACKOFF_MAX_SECONDS
  ∧ backoff 4 = (2 * backoff 3) `min` BACKOFF_MAX_SECONDS
  ∧ backoff 3 ≤ backoff 4.
Proof.
  apply (backoff_doubles_up_to_the_cap 3). lia.
Defined.

(** An instance: the only record names a file of the directory [h1b]. *)
Lemma cycle_reports_no_missing_file_witness :
  ∃ results self1 w1 found self2 w2,
    scrape_all twin_site known_store known_disk
    = (Returned (results, self1), w1)
    ∧ files_present self1 (disk w1)
    ∧ cleanup_inconsistencies twin_site self1 w1
      = (Returned (found, self2), w2)
    ∧ missing_files found = [].
Proof.
  apply (cycle_reports_no_missing_file twin_site known_store known_disk).
  repeat constructor. exists "h1b". split.
  - repeat constructor.
  - vm_compute. eexists. reflexivity.
Defined.

(** An instance: of two records, the file of the second was changed. *)
Lemma cleanup_twice_changes_nothing_witness :
  ∃ found self1 w1 orphaned,
    cleanup_inconsistencies empty_site two_records one_file_changed
    = (Returned (found, self1), w1)
    ∧ cleanup_inconsistencies empty_site self1 w1
      = (Returned ({| missing_files := []; checksum_mismatches := [];
                      orphaned_files := orphaned |}, self1), w1).
Proof.
  apply (cleanup_twice_changes_nothing empty_site two_records
           one_file_changed).
  - apply (bool_decide_unpack _). vm_compute. exact I.
  - repeat constructor; apply (bool_decide_unpack _); vm_compute; exact I.
Defined.

(** An instance: the file of the only record was changed, so the check
    repairs the record and saves; the file itself is left as it is. *)
Lemma cleanup_touches_only_state_files_witness :
  untouched (InVisa "h2a" "h2a_2023.csv") modified_disk
    (cleanup_inconsistencies empty_site stale_store modified_disk).2
  ∧ Dict.get (InVisa "h2a" "h2a_2023.csv")
      (disk (cleanup_inconsistencies empty_site stale_store modified_disk).2)
    = Dict.get (InVisa "h2a" "h2a_2023.csv") (disk modified_disk).
Proof.
  apply (cleanup_touches_only_state_files empty_site stale_store modified_disk
           (cleanup_inconsistencies empty_site stale_store modified_disk).2
           (cleanup_inconsistencies empty_site stale_store modified_disk).1).
  - apply surjective_pairing.
  - apply (bool_decide_unpack _). vm_compute. exact I.
Defined.
